(** * MMO-WORLD: the world server ([server.js], [models/items.js])

    A shallow embedding of the WebSocket message handler, the collection
    timers and the connection life cycle of [server.js], and of the item
    templates of [models/items.js], followed by the properties of the
    specification that were checked against it.

    Conventions of the embedding.
    - A JavaScript number is a rational ([Q]): arithmetic is exact, so
      rounding, [NaN] and the infinities of IEEE doubles are outside the
      model.
    - [Math.sqrt] has no rational counterpart: a comparison
      [Math.sqrt(x) < t] with [0 <= t] is decided on the squares
      ([x < t * t]), see [sqrt_lt] and [sqrt_le].  Where the exact distance
      is within rounding error of a threshold, the source's test on doubles
      can come out differently; the general theorems take the outcome of
      the test, or a bound on the distance, as a hypothesis, and the
      examples that sit on a threshold use coordinates on which the double
      arithmetic is exact and are evaluated on binary64 numbers as well
      (module [Binary64]).
    - A string is a [string] of code units below 256.
    - Inbound messages are taken at the field types of the message
      catalogue (identifiers are strings, amounts are numbers); a field that
      the handler guards with [||] is optional.
    - [players] is a plain object: a key without a record still reads as
      truthy when it names a member that every object inherits from
      [Object.prototype] (see [inherited]).  The connection's own [playerId]
      is a [uuidv4()] result, which is never such a name.
    - Objects are never mutated while shared (a world item is pushed to an
      inventory and spliced from the world in the same callback; positions
      are replaced, never updated in place), so records are plain values. *)

From Stdlib Require Import ZArith QArith Reals Qreals String Ascii List Bool Lia DecimalString.
From Stdlib Require Floats.PrimFloat.
From stdpp Require Import base option gmap strings list.

Import ListNotations.
Local Open Scope string_scope.
Local Open Scope Q_scope.

(** ** JavaScript numbers and the [||] idiom *)

Definition Qlt_bool (x y : Q) : bool := negb (Qle_bool y x).

(** [Math.max(a, b)] and [Math.min(a, b)]. *)
Definition Math_max (a b : Q) : Q := if Qle_bool a b then b else a.
Definition Math_min (a b : Q) : Q := if Qle_bool a b then a else b.

(** [Math.pow(x, 2)]. *)
Definition Math_pow2 (x : Q) : Q := x * x.

(** [x || d] on an optional number. *)
Definition or_num (x : option Q) (d : Q) : Q :=
  match x with
  | Some q => if Qeq_bool q 0 then d else q
  | None => d
  end.

(** Truthiness of a string: the empty string is falsy. *)
Definition truthy_str (s : string) : bool :=
  match s with
  | EmptyString => false
  | String _ _ => true
  end.

(** [x || d] on an optional string. *)
Definition or_str (x : option string) (d : string) : string :=
  match x with
  | Some s => if truthy_str s then s else d
  | None => d
  end.

(** [Math.sqrt(x) < t] and [Math.sqrt(x) <= t] for [0 <= t], on the squares. *)
Definition sqrt_lt (x t : Q) : bool := Qlt_bool x (t * t).
Definition sqrt_le (x t : Q) : bool := Qle_bool x (t * t).

(** Decimal rendering of an integer inside a template literal. *)
Definition show_Z (z : Z) : string := NilZero.string_of_int (Z.to_int z).

(** ** Items ([models/items.js]) *)

Inductive ItemType := weapon | armor | consumable | collectible.

Definition ItemType_eqb (a b : ItemType) : bool :=
  match a, b with
  | weapon, weapon | armor, armor
  | consumable, consumable | collectible, collectible => true
  | _, _ => false
  end.

Record Position := { lat : Q; lng : Q }.

(** The [stats] object of a template: every stat is optional. *)
Record Stats := {
  attack : option Q;
  defense : option Q;
  heal : option Q;
  value : option Q
}.

Module Item.
(** An item instance.  The display fields [rarity], [description],
    [imageUrl] and [createdAt] are carried along unchanged by the source
    and read by no server code; they are left out.  [beingCollected] and
    [collectorId] are absent ([undefined]) on a fresh item: an absent flag
    is [false], an absent or [null] collector is [None]. *)
Record t := {
  id : string;
  name : string;
  type : ItemType;
  stats : Stats;
  itemId : string;
  position : Position;
  collectionTime : option Q;
  beingCollected : bool;
  collectorId : option string
}.

(** [item.beingCollected = b; item.collectorId = c]. *)
Definition set_claim (b : bool) (c : option string) (it : t) : t :=
  {| id := id it; name := name it; type := type it; stats := stats it;
     itemId := itemId it; position := position it;
     collectionTime := collectionTime it;
     beingCollected := b; collectorId := c |}.
End Item.

(** [class ItemTemplate]: the fields set by the constructor. *)
Record ItemTemplate := {
  tpl_id : string;
  tpl_name : string;
  tpl_type : ItemType;
  tpl_stats : Stats
}.

(** [ITEM_TEMPLATES]. *)
Definition ITEM_TEMPLATES (templateId : string) : option ItemTemplate :=
  if String.eqb templateId "iron-sword" then
    Some {| tpl_id := "iron-sword"; tpl_name := "Iron Sword"; tpl_type := weapon;
            tpl_stats := {| attack := Some 5; defense := None; heal := None; value := None |} |}
  else if String.eqb templateId "steel-sword" then
    Some {| tpl_id := "steel-sword"; tpl_name := "Steel Sword"; tpl_type := weapon;
            tpl_stats := {| attack := Some 10; defense := None; heal := None; value := None |} |}
  else if String.eqb templateId "leather-armor" then
    Some {| tpl_id := "leather-armor"; tpl_name := "Leather Armor"; tpl_type := armor;
            tpl_stats := {| attack := None; defense := Some 3; heal := None; value := None |} |}
  else if String.eqb templateId "health-potion" then
    Some {| tpl_id := "health-potion"; tpl_name := "Health Potion"; tpl_type := consumable;
            tpl_stats := {| attack := None; defense := None; heal := Some 20; value := None |} |}
  else if String.eqb templateId "gold-coin" then
    Some {| tpl_id := "gold-coin"; tpl_name := "Gold Coin"; tpl_type := collectible;
            tpl_stats := {| attack := None; defense := None; heal := None; value := Some 1 |} |}
  else None.

(** The two sources of nondeterminism of the server: [Date.now()] and
    [Math.floor(Math.random() * 1000)], read when an item identifier is
    minted. *)
Record Env := { Date_now : Z; Math_random_1000 : Z }.

(** The template literal [`${id}-${Date.now()}-${Math.floor(Math.random() * 1000)}`]. *)
Definition fresh_itemId (e : Env) (base : string) : string :=
  base ++ "-" ++ show_Z (Date_now e) ++ "-" ++ show_Z (Math_random_1000 e).

(** [ItemTemplate.createItem] with the custom properties [position] and
    [collectionTime], the only ones the server passes. *)
Definition createItem (e : Env) (tp : ItemTemplate)
    (pos : Position) (ctime : option Q) : Item.t :=
  {| Item.id := tpl_id tp; Item.name := tpl_name tp; Item.type := tpl_type tp;
     Item.stats := tpl_stats tp;
     Item.itemId := fresh_itemId e (tpl_id tp);
     Item.position := pos; Item.collectionTime := ctime;
     Item.beingCollected := false; Item.collectorId := None |}.

(** [createItemFromTemplate]: [None] stands for the thrown
    "Item template not found" error. *)
Definition createItemFromTemplate (e : Env) (templateId : string)
    (pos : Position) (ctime : option Q) : option Item.t :=
  match ITEM_TEMPLATES templateId with
  | Some tp => Some (createItem e tp pos ctime)
  | None => None
  end.

(** ** Players *)

(** The [stats] block of a player. *)
Record PlayerStats := {
  strength : Q;
  dexterity : Q;
  intelligence : Q;
  stamina : Q
}.

Module Player.
Record t := {
  id : string;
  name : string;
  position : Position;
  avatar : option string;
  hp : Q;
  level : Q;
  xp : Q;
  gold : Q;
  inventory : list Item.t;
  stats : PlayerStats;
  lastMessage : string
}.

Definition set_position (x : Position) (p : t) : t :=
  {| id := id p; name := name p; position := x; avatar := avatar p;
     hp := hp p; level := level p; xp := xp p; gold := gold p;
     inventory := inventory p; stats := stats p; lastMessage := lastMessage p |}.

Definition set_lastMessage (x : string) (p : t) : t :=
  {| id := id p; name := name p; position := position p; avatar := avatar p;
     hp := hp p; level := level p; xp := xp p; gold := gold p;
     inventory := inventory p; stats := stats p; lastMessage := x |}.

Definition set_name (x : string) (p : t) : t :=
  {| id := id p; name := x; position := position p; avatar := avatar p;
     hp := hp p; level := level p; xp := xp p; gold := gold p;
     inventory := inventory p; stats := stats p; lastMessage := lastMessage p |}.

Definition set_avatar (x : option string) (p : t) : t :=
  {| id := id p; name := name p; position := position p; avatar := x;
     hp := hp p; level := level p; xp := xp p; gold := gold p;
     inventory := inventory p; stats := stats p; lastMessage := lastMessage p |}.

Definition set_hp (x : Q) (p : t) : t :=
  {| id := id p; name := name p; position := position p; avatar := avatar p;
     hp := x; level := level p; xp := xp p; gold := gold p;
     inventory := inventory p; stats := stats p; lastMessage := lastMessage p |}.

Definition set_gold (x : Q) (p : t) : t :=
  {| id := id p; name := name p; position := position p; avatar := avatar p;
     hp := hp p; level := level p; xp := xp p; gold := x;
     inventory := inventory p; stats := stats p; lastMessage := lastMessage p |}.

Definition set_inventory (x : list Item.t) (p : t) : t :=
  {| id := id p; name := name p; position := position p; avatar := avatar p;
     hp := hp p; level := level p; xp := xp p; gold := gold p;
     inventory := x; stats := stats p; lastMessage := lastMessage p |}.
End Player.

(** ** Messages *)

(** Inbound messages, one constructor per [case] of the [switch] on
    [data.type]; [other] is any type the [switch] has no case for. *)
Inductive Action :=
| update_position (position : Position)
| chat_message (message : string)
| pickup_item (itemId : string)
| add_to_inventory
| cancel_collection (itemId : string)
| use_item (itemId : string)
| attack_player (targetPlayerId weaponId : string) (damage : option Q)
| heal_player (targetPlayerId itemId : string) (healAmount : option Q)
| drop_item (itemId : string)
| view_profile (profilePlayerId : string)
| update_profile (name : option string)
| update_avatar (avatar : string)
| other (type : string).

(** A parsed message: the optional [playerId] field and the typed body. *)
Record Message := { data_playerId : option string; action : Action }.

(** The property names of [Object.prototype]: a plain object such as
    [players] answers each of them with an inherited, truthy member (a
    function, or the prototype itself for [__proto__]) that has no
    [position]. *)
Definition Object_prototype_keys : list string :=
  [ "constructor"; "__proto__"; "hasOwnProperty"; "isPrototypeOf";
    "propertyIsEnumerable"; "toLocaleString"; "toString"; "valueOf";
    "__defineGetter__"; "__defineSetter__"; "__lookupGetter__"; "__lookupSetter__" ].

Definition inherited (key : string) : bool :=
  existsb (String.eqb key) Object_prototype_keys.

(** A truthy [players[key]]: the record of a player, or the inherited member
    of that name when there is no record. *)
Inductive Profile :=
| player_record (p : Player.t)
| prototype_member (key : string).

(** Outbound messages.  Constant [message] texts are kept; the interpolated
    texts (["You hit ${name} for ${damage} damage!"] and the like) repeat
    fields that are kept, and are left out. *)
Inductive Outbound :=
| init (clientId playerId : string) (player : Player.t)
    (players : gmap string Player.t) (items : list Item.t)
    (availableAvatars : list string)
| player_joined (player : Player.t)
| player_left (playerId : string)
| world_update (players : gmap string Player.t) (items : list Item.t)
| collection_started (itemId : string) (collectionTime : Q)
| collection_complete (itemId : string) (playerGold : Q) (inventory : list Item.t)
| collection_canceled (itemId : string)
| collection_error (message : string)
| item_used_heal (newHP amount : Q)
| item_used (actionType : string)
| weapon_ready (weaponId : string) (damage : Q)
| attack_success (targetName : string) (damage : Q)
| attacked (attackerName : string) (damage currentHP : Q)
| attack_failed (message : string)
| heal_success (targetName : string) (healAmount : Q)
| healed (healerName : string) (healAmount currentHP : Q)
| heal_failed (message : string)
| item_dropped (itemName : string)
| profile_data (playerProfile : Profile) (isOwnProfile : bool).

(** A [send] on the socket of the connection [clientId]. *)
Definition Send : Type := string * Outbound.

(** ** The server state *)

(** The closure variables of one [wss.on("connection")] call; the socket
    [ws] is identified by [ws.clientId = clientId]. *)
Record Conn := { clientId : string; playerId : string }.

(** The closure of the [setTimeout] callback of [pickup_item]: of the
    captured [item] object it reads [itemId], [type] and [stats] only,
    fields that no code assigns after creation. *)
Record Timer := {
  t_itemId : string;
  t_type : ItemType;
  t_stats : Stats;
  t_conn : Conn;
  t_delay : Q
}.

(** The module-level state: [players], [worldItems], [clientSessions], the
    constant [avatars], the open sockets of [wss.clients] in connection
    order, and the pending collection timers in scheduling order. *)
Record Server := {
  players : gmap string Player.t;
  worldItems : list Item.t;
  clientSessions : gmap string string;
  avatars : list string;
  clients : list string;
  timers : list Timer
}.

Definition set_players (x : gmap string Player.t) (s : Server) : Server :=
  {| players := x; worldItems := worldItems s; clientSessions := clientSessions s;
     avatars := avatars s; clients := clients s; timers := timers s |}.

Definition set_worldItems (x : list Item.t) (s : Server) : Server :=
  {| players := players s; worldItems := x; clientSessions := clientSessions s;
     avatars := avatars s; clients := clients s; timers := timers s |}.

Definition set_clientSessions (x : gmap string string) (s : Server) : Server :=
  {| players := players s; worldItems := worldItems s; clientSessions := x;
     avatars := avatars s; clients := clients s; timers := timers s |}.

Definition set_clients (x : list string) (s : Server) : Server :=
  {| players := players s; worldItems := worldItems s; clientSessions := clientSessions s;
     avatars := avatars s; clients := x; timers := timers s |}.

Definition set_timers (x : list Timer) (s : Server) : Server :=
  {| players := players s; worldItems := worldItems s; clientSessions := clientSessions s;
     avatars := avatars s; clients := clients s; timers := x |}.

(** The result of running a callback body: it returns, or it throws (the
    only throw that typed messages can cause is the [TypeError] of reading a
    property of [players[playerId]] when that is [undefined]; every such
    read comes before the first assignment and the first [send] of its
    case). *)
Inductive Completion (A : Type) :=
| Normal (a : A)
| Throw.
Arguments Normal {A} a.
Arguments Throw {A}.

(** ** Array and string helpers *)

(** [Array.prototype.findIndex]: [None] is the result [-1]. *)
Fixpoint findIndex {A : Type} (f : A -> bool) (l : list A) : option nat :=
  match l with
  | [] => None
  | x :: l' => if f x then Some O else option_map S (findIndex f l')
  end.

(** [arr.splice(i, 1)]. *)
Definition splice1 {A : Type} (i : nat) (l : list A) : list A := delete i l.

(** [a === b] where [a] may be [undefined] or [null]. *)
Definition opt_str_eqb (a : option string) (b : string) : bool :=
  match a with
  | Some x => String.eqb x b
  | None => false
  end.

(** The squared planar distance under the [Math.sqrt] of the handlers. *)
Definition dist2 (a b : Position) : Q :=
  Math_pow2 (lat a - lat b) + Math_pow2 (lng a - lng b).

(** The character classes of the regular expression [/[^\w\s-]/gi]: [\w] is
    [A-Za-z0-9_]; [\s], among the code units below 256, is the tab, the
    line feed, the vertical tab, the form feed, the carriage return, the
    space and the no-break space. *)
Definition is_word (c : ascii) : bool :=
  let n := nat_of_ascii c in
  ((65 <=? n) && (n <=? 90) || (97 <=? n) && (n <=? 122)
   || (48 <=? n) && (n <=? 57) || (n =? 95))%nat.

Definition is_space (c : ascii) : bool :=
  let n := nat_of_ascii c in
  ((9 <=? n) && (n <=? 13) || (n =? 32) || (n =? 160))%nat.

Definition is_hyphen (c : ascii) : bool := (nat_of_ascii c =? 45)%nat.

Definition name_char (c : ascii) : bool := is_word c || is_space c || is_hyphen c.

Fixpoint filter_str (keep : ascii -> bool) (s : string) : string :=
  match s with
  | EmptyString => EmptyString
  | String c s' => if keep c then String c (filter_str keep s') else filter_str keep s'
  end.

(** [name.replace(/[^\w\s-]/gi, '').substring(0, 20)]. *)
Definition sanitize (name : string) : string :=
  substring 0 20 (filter_str name_char name).

(** ** The message handler ([ws.on("message")]) *)

(** [isAuthorizedForPlayer]. *)
Definition isAuthorizedForPlayer (s : Server) (clientId targetPlayerId : string) : bool :=
  opt_str_eqb (clientSessions s !! clientId) targetPlayerId.

(** An assignment to a field of [players[pid]], the object being present. *)
Definition update_player (pid : string) (f : Player.t -> Player.t) (s : Server) : Server :=
  set_players (alter f pid (players s)) s.

(** A read of [players[pid].field]: a [TypeError] when the player is absent. *)
Definition with_player {A : Type} (s : Server) (pid : string)
    (k : Player.t -> Completion A) : Completion A :=
  match players s !! pid with
  | Some p => k p
  | None => Throw
  end.

(** The [world_update] loop over [wss.clients]. *)
Definition broadcast (s : Server) : list Send :=
  map (fun cid => (cid, world_update (players s) (worldItems s))) (clients s).

(** [Array.from(wss.clients).find(client => ... clientSessions.get(client.clientId) === pid)]. *)
Definition find_client (s : Server) (pid : string) : option string :=
  List.find (fun cid => opt_str_eqb (clientSessions s !! cid) pid) (clients s).

Definition notify (target : option string) (m : Outbound) : list Send :=
  match target with
  | Some cid => [(cid, m)]
  | None => []
  end.

Definition update_position_case (c : Conn) (pos : Position) (s : Server)
    : Completion (Server * list Send) :=
  with_player s (playerId c) (fun _ =>
    Normal (update_player (playerId c) (Player.set_position pos) s, [])).

Definition chat_message_case (c : Conn) (msg : string) (s : Server)
    : Completion (Server * list Send) :=
  with_player s (playerId c) (fun _ =>
    Normal (update_player (playerId c) (Player.set_lastMessage msg) s, [])).

Definition pickup_item_case (c : Conn) (itemId : string) (s : Server)
    : Completion (Server * list Send) :=
  match findIndex (fun item => String.eqb (Item.itemId item) itemId) (worldItems s) with
  | Some itemIndex =>
      match worldItems s !! itemIndex with
      | None => Throw
      | Some item =>
          with_player s (playerId c) (fun player =>
            let itemPos := Item.position item in
            let playerPos := Player.position player in
            if sqrt_lt (dist2 itemPos playerPos) 0.001 then
              if negb (Item.beingCollected item) then
                let collectionTime := or_num (Item.collectionTime item) 3000 in
                let item' := Item.set_claim true (Some (playerId c)) item in
                let timer := {| t_itemId := Item.itemId item; t_type := Item.type item;
                                t_stats := Item.stats item; t_conn := c;
                                t_delay := collectionTime |} in
                Normal (set_timers (timers s ++ [timer])%list
                          (set_worldItems (<[itemIndex := item']> (worldItems s)) s),
                        [(clientId c, collection_started (Item.itemId item) collectionTime)])
              else if negb (opt_str_eqb (Item.collectorId item) (playerId c)) then
                Normal (s, [(clientId c,
                  collection_error "This item is being collected by another player")])
              else Normal (s, [])
            else
              Normal (s, [(clientId c, collection_error "Item is too far away to collect")]))
      end
  | None => Normal (s, [])
  end.

Definition cancel_collection_case (c : Conn) (itemId : string) (s : Server)
    : Completion (Server * list Send) :=
  match findIndex (fun item => String.eqb (Item.itemId item) itemId
                               && opt_str_eqb (Item.collectorId item) (playerId c))
                  (worldItems s) with
  | Some cancelItemIndex =>
      match worldItems s !! cancelItemIndex with
      | None => Throw
      | Some item =>
          Normal (set_worldItems
                    (<[cancelItemIndex := Item.set_claim false None item]> (worldItems s)) s,
                  [(clientId c, collection_canceled itemId)])
      end
  | None => Normal (s, [])
  end.

Definition use_item_case (c : Conn) (itemId : string) (s : Server)
    : Completion (Server * list Send) :=
  with_player s (playerId c) (fun player =>
    match findIndex (fun item => String.eqb (Item.itemId item) itemId)
                    (Player.inventory player) with
    | Some inventoryItemIndex =>
        match Player.inventory player !! inventoryItemIndex with
        | None => Throw
        | Some item =>
            let consumed := fun p =>
              Player.set_inventory (splice1 inventoryItemIndex (Player.inventory p)) p in
            match Item.type item with
            | consumable =>
                match heal (Item.stats item) with
                | Some h =>
                    if Qeq_bool h 0 then Normal (s, [])
                    else
                      let newHP := Math_min 100 (Player.hp player + h) in
                      Normal (update_player (playerId c) consumed
                                (update_player (playerId c) (Player.set_hp newHP) s),
                              [(clientId c, item_used_heal newHP h)])
                | None => Normal (s, [])
                end
            | weapon =>
                Normal (s, [(clientId c,
                  weapon_ready (Item.itemId item) (or_num (attack (Item.stats item)) 5))])
            | armor =>
                Normal (update_player (playerId c) consumed s,
                        [(clientId c, item_used "equip")])
            | collectible =>
                Normal (update_player (playerId c) consumed s,
                        [(clientId c, item_used "generic")])
            end
        end
    | None => Normal (s, [])
    end).

(** [const consumeWeapon = false]. *)
Definition consumeWeapon : bool := false.

Definition attack_player_case (c : Conn) (targetPlayerId weaponId : string)
    (data_damage : option Q) (s : Server) : Completion (Server * list Send) :=
  let damage := or_num data_damage 5 in
  match players s !! targetPlayerId with
  | Some target =>
      with_player s (playerId c) (fun attacker =>
        match findIndex (fun item => String.eqb (Item.itemId item) weaponId
                                     && ItemType_eqb (Item.type item) weapon)
                        (Player.inventory attacker) with
        | Some weaponIndex =>
            let attackerPos := Player.position attacker in
            let targetPos := Player.position target in
            if sqrt_le (dist2 targetPos attackerPos) 0.0002 then
              let newHP := Math_max 0 (Player.hp target - damage) in
              let s1 := update_player targetPlayerId (Player.set_hp newHP) s in
              let to_attacker := [(clientId c, attack_success (Player.name target) damage)] in
              let to_target :=
                notify (find_client s1 targetPlayerId)
                       (attacked (Player.name attacker) damage newHP) in
              if consumeWeapon then
                Normal (update_player (playerId c)
                          (fun p => Player.set_inventory
                                      (splice1 weaponIndex (Player.inventory p)) p) s1,
                        (to_attacker ++ to_target
                         ++ [(clientId c, item_used "weapon_consumed")])%list)
              else Normal (s1, (to_attacker ++ to_target)%list)
            else
              Normal (s, [(clientId c, attack_failed "Target is too far away to attack!")])
        | None =>
            Normal (s, [(clientId c, attack_failed "Weapon not found in your inventory!")])
        end)
  | None =>
      if inherited targetPlayerId then
        (* the inherited member is truthy; [targetPos] is [undefined] *)
        with_player s (playerId c) (fun attacker =>
          match findIndex (fun item => String.eqb (Item.itemId item) weaponId
                                       && ItemType_eqb (Item.type item) weapon)
                          (Player.inventory attacker) with
          | Some _ => Throw
          | None =>
              Normal (s, [(clientId c, attack_failed "Weapon not found in your inventory!")])
          end)
      else Normal (s, [(clientId c, attack_failed "Target player not found!")])
  end.

Definition heal_player_case (c : Conn) (healTargetId healItemId : string)
    (data_healAmount : option Q) (s : Server) : Completion (Server * list Send) :=
  let healAmount := or_num data_healAmount 20 in
  match players s !! healTargetId with
  | Some target =>
      with_player s (playerId c) (fun healer =>
        match findIndex (fun item => String.eqb (Item.itemId item) healItemId
                                     && ItemType_eqb (Item.type item) consumable)
                        (Player.inventory healer) with
        | Some healItemIndex =>
            match Player.inventory healer !! healItemIndex with
            | None => Throw
            | Some healItem =>
                let healerPos := Player.position healer in
                let targetPos := Player.position target in
                if sqrt_le (dist2 targetPos healerPos) 0.0002 then
                  let actualHealAmount := or_num (heal (Item.stats healItem)) healAmount in
                  let newHP := Math_min 100 (Player.hp target + actualHealAmount) in
                  let s1 := update_player healTargetId (Player.set_hp newHP) s in
                  let s2 := update_player (playerId c)
                              (fun p => Player.set_inventory
                                          (splice1 healItemIndex (Player.inventory p)) p) s1 in
                  Normal (s2,
                          ([(clientId c, heal_success (Player.name target) actualHealAmount)]
                           ++ notify (find_client s2 healTargetId)
                                (healed (Player.name healer) actualHealAmount newHP))%list)
                else
                  Normal (s, [(clientId c, heal_failed "Target is too far away to heal!")])
            end
        | None =>
            Normal (s, [(clientId c,
              heal_failed "Healing item not found in your inventory!")])
        end)
  | None =>
      if inherited healTargetId then
        (* the inherited member is truthy; [targetPos] is [undefined] *)
        with_player s (playerId c) (fun healer =>
          match findIndex (fun item => String.eqb (Item.itemId item) healItemId
                                       && ItemType_eqb (Item.type item) consumable)
                          (Player.inventory healer) with
          | Some _ => Throw
          | None =>
              Normal (s, [(clientId c,
                heal_failed "Healing item not found in your inventory!")])
          end)
      else Normal (s, [(clientId c, heal_failed "Target player not found!")])
  end.

Definition drop_item_case (c : Conn) (e : Env) (dropItemId : string) (s : Server)
    : Completion (Server * list Send) :=
  with_player s (playerId c) (fun player =>
    match findIndex (fun item => String.eqb (Item.itemId item) dropItemId)
                    (Player.inventory player) with
    | Some dropItemIndex =>
        match Player.inventory player !! dropItemIndex with
        | None => Throw
        | Some droppedItem =>
            let newWorldItem :=
              {| Item.id := Item.id droppedItem; Item.name := Item.name droppedItem;
                 Item.type := Item.type droppedItem; Item.stats := Item.stats droppedItem;
                 Item.itemId := fresh_itemId e (Item.id droppedItem);
                 Item.position := Player.position player;
                 Item.collectionTime := Some 1000;
                 Item.beingCollected := false; Item.collectorId := None |} in
            let s1 := update_player (playerId c)
                        (fun p => Player.set_inventory
                                    (splice1 dropItemIndex (Player.inventory p)) p) s in
            Normal (set_worldItems (worldItems s1 ++ [newWorldItem])%list s1,
                    [(clientId c, item_dropped (Item.name droppedItem))])
        end
    | None => Normal (s, [])
    end).

Definition view_profile_case (c : Conn) (profilePlayerId : string) (s : Server)
    : Completion (Server * list Send) :=
  let isOwnProfile := String.eqb profilePlayerId (playerId c) in
  match players s !! profilePlayerId with
  | Some profile =>
      Normal (s, [(clientId c, profile_data (player_record profile) isOwnProfile)])
  | None =>
      if inherited profilePlayerId then
        Normal (s, [(clientId c,
                     profile_data (prototype_member profilePlayerId) isOwnProfile)])
      else Normal (s, [])
  end.

Definition update_profile_case (c : Conn) (data_name : option string) (s : Server)
    : Completion (Server * list Send) :=
  match data_name with
  | Some name =>
      if truthy_str name then
        with_player s (playerId c) (fun _ =>
          Normal (update_player (playerId c) (Player.set_name (sanitize name)) s, []))
      else Normal (s, [])
  | None => Normal (s, [])
  end.

Definition update_avatar_case (c : Conn) (avatar : string) (s : Server)
    : Completion (Server * list Send) :=
  if existsb (String.eqb avatar) (avatars s) then
    with_player s (playerId c) (fun _ =>
      Normal (update_player (playerId c) (Player.set_avatar (Some avatar)) s, []))
  else Normal (s, []).

(** The [switch (data.type)]. *)
Definition dispatch (c : Conn) (e : Env) (a : Action) (s : Server)
    : Completion (Server * list Send) :=
  match a with
  | update_position pos => update_position_case c pos s
  | chat_message msg => chat_message_case c msg s
  | pickup_item itemId => pickup_item_case c itemId s
  | add_to_inventory => Normal (s, [])
  | cancel_collection itemId => cancel_collection_case c itemId s
  | use_item itemId => use_item_case c itemId s
  | attack_player target weaponId damage => attack_player_case c target weaponId damage s
  | heal_player target itemId healAmount => heal_player_case c target itemId healAmount s
  | drop_item itemId => drop_item_case c e itemId s
  | view_profile pid => view_profile_case c pid s
  | update_profile name => update_profile_case c name s
  | update_avatar avatar => update_avatar_case c avatar s
  | other _ => Normal (s, [])
  end.

Definition is_view_profile (a : Action) : bool :=
  match a with
  | view_profile _ => true
  | _ => false
  end.

(** The guard in front of the [switch]: [true] when the handler returns
    early. *)
Definition unauthorized (c : Conn) (data : Message) (s : Server) : bool :=
  let targetPlayerId := or_str (data_playerId data) (playerId c) in
  negb (is_view_profile (action data))
  && negb (String.eqb targetPlayerId (playerId c))
  && negb (isAuthorizedForPlayer s (clientId c) targetPlayerId).

(** The whole [ws.on("message")] callback for a parsed message: the guard,
    the [switch], the closing [world_update] broadcast, and the [catch]
    that only logs. *)
Definition on_message (c : Conn) (e : Env) (data : Message) (s : Server)
    : Server * list Send :=
  if unauthorized c data s then (s, [])
  else
    match dispatch c e (action data) s with
    | Normal (s', out) => (s', (out ++ broadcast s')%list)
    | Throw => (s, [])
    end.

(** ** The collection timer (the [setTimeout] callback of [pickup_item]) *)

(** The reward of a completed collection: gold for a collectible with a
    truthy [value], the world item itself otherwise. *)
Definition reward (t : Timer) (current : Item.t) (p : Player.t) : Player.t :=
  let push := Player.set_inventory (Player.inventory p ++ [current])%list p in
  match value (t_stats t) with
  | Some v =>
      if ItemType_eqb (t_type t) collectible && negb (Qeq_bool v 0)
      then Player.set_gold (Player.gold p + v) p
      else push
  | None => push
  end.

Definition collection_timeout (t : Timer) (s : Server)
    : Completion (Server * list Send) :=
  let c := t_conn t in
  match findIndex (fun i => String.eqb (Item.itemId i) (t_itemId t)) (worldItems s) with
  | Some currentItemIndex =>
      match worldItems s !! currentItemIndex with
      | None => Throw
      | Some current =>
          if opt_str_eqb (Item.collectorId current) (playerId c) then
            with_player s (playerId c) (fun _ =>
              let s1 := update_player (playerId c) (reward t current) s in
              let s2 := set_worldItems (splice1 currentItemIndex (worldItems s1)) s1 in
              with_player s2 (playerId c) (fun p =>
                Normal (s2,
                        ((clientId c,
                          collection_complete (t_itemId t) (Player.gold p) (Player.inventory p))
                         :: broadcast s2))))
          else Normal (s, [])
      end
  | None => Normal (s, [])
  end.

(** The [n]-th pending timer elapses: it leaves the pending list and its
    callback runs.  A [Throw] here is an uncaught exception. *)
Definition fire_timer (n : nat) (s : Server) : Completion (Server * list Send) :=
  match timers s !! n with
  | Some t => collection_timeout t (set_timers (delete n (timers s)) s)
  | None => Normal (s, [])
  end.

(** ** Connections ([wss.on("connection")] and [ws.on("close")]) *)

Definition DEFAULT_POSITION : Position := {| lat := 40.7128; lng := - 74.0060 |}.

Definition new_player (playerId : string) (avatar : option string) : Player.t :=
  {| Player.id := playerId;
     Player.name := "Player-" ++ substring 0 4 playerId;
     Player.position := DEFAULT_POSITION;
     Player.avatar := avatar;
     Player.hp := 100; Player.level := 1; Player.xp := 0; Player.gold := 10;
     Player.inventory := [];
     Player.stats := {| strength := 5; dexterity := 5; intelligence := 5; stamina := 5 |};
     Player.lastMessage := "" |}.

(** [createInitialItemsNearPosition]: the four items are minted by four
    calls of [createItemFromTemplate], each with its own clock and random
    reading. *)
Definition createInitialItemsNearPosition (es : Env * Env * Env * Env)
    (lat0 lng0 : Q) (items : list Item.t) : option (list Item.t) :=
  match items with
  | [] =>
      let '(e1, e2, e3, e4) := es in
      a ← createItemFromTemplate e1 "health-potion"
             {| lat := lat0; lng := lng0 + 0.0002 |} (Some 2000);
      b ← createItemFromTemplate e2 "iron-sword"
             {| lat := lat0 + 0.0002; lng := lng0 - 0.0001 |} (Some 5000);
      c ← createItemFromTemplate e3 "gold-coin"
             {| lat := lat0 - 0.0001; lng := lng0 + 0.0001 |} (Some 1000);
      d ← createItemFromTemplate e4 "leather-armor"
             {| lat := lat0 + 0.0001; lng := lng0 - 0.0002 |} (Some 3000);
      Some [a; b; c; d]
  | _ => Some items
  end.

(** A new connection.  [c] holds the two [uuidv4()] results, [avatarIndex]
    is [Math.floor(Math.random() * avatars.length)]. *)
Definition on_connection (c : Conn) (avatarIndex : nat) (es : Env * Env * Env * Env)
    (s : Server) : Completion (Server * list Send) :=
  let s1 := set_clientSessions (<[clientId c := playerId c]> (clientSessions s)) s in
  let player := new_player (playerId c) (avatars s !! avatarIndex) in
  let s2 := set_players (<[playerId c := player]> (players s1)) s1 in
  let playerPos := Player.position player in
  match createInitialItemsNearPosition es (lat playerPos) (lng playerPos) (worldItems s2) with
  | Some items =>
      let s3 := set_worldItems items s2 in
      Normal (set_clients (clients s ++ [clientId c])%list s3,
              ((clientId c,
                init (clientId c) (playerId c) player (players s3) (worldItems s3) (avatars s3))
               :: map (fun cid => (cid, player_joined player)) (clients s)))
  | None => Throw
  end.

(** The socket of [c] closes: it has left [wss.clients] when the callback
    runs.  The callback deletes the session and the player and tells the
    others; it does not touch [worldItems]. *)
Definition on_close (c : Conn) (s : Server) : Server * list Send :=
  let s1 := set_clientSessions (delete (clientId c) (clientSessions s)) s in
  let s2 := set_players (delete (playerId c) (players s1)) s1 in
  let s3 := set_clients
              (List.filter (fun cid => negb (String.eqb cid (clientId c))) (clients s2)) s2 in
  (s3, map (fun cid => (cid, player_left (playerId c))) (clients s3)).

(** ** Runs of the server *)

(** The events the single-threaded event loop delivers.  The spawn cycle
    ([spawnNewItems]) only appends unclaimed items and is not an event of
    this model. *)
Inductive Event :=
| Connect (c : Conn) (avatarIndex : nat) (es : Env * Env * Env * Env)
| Receive (c : Conn) (e : Env) (data : Message)
| Timeout (n : nat)
| Close (c : Conn).

Definition step (ev : Event) (s : Server) : Completion (Server * list Send) :=
  match ev with
  | Connect c avatarIndex es => on_connection c avatarIndex es s
  | Receive c e data => Normal (on_message c e data s)
  | Timeout n => fire_timer n s
  | Close c => Normal (on_close c s)
  end.

(** Events are handled one after the other, each to completion; an uncaught
    exception ends the run. *)
Fixpoint run (evs : list Event) (s : Server) : Completion (Server * list Send) :=
  match evs with
  | [] => Normal (s, [])
  | ev :: evs' =>
      match step ev s with
      | Normal (s1, out1) =>
          match run evs' s1 with
          | Normal (s2, out2) => Normal (s2, (out1 ++ out2)%list)
          | Throw => Throw
          end
      | Throw => Throw
      end
  end.

(** The state of a freshly started server. *)
Definition initial (avs : list string) : Server :=
  {| players := ∅; worldItems := []; clientSessions := ∅;
     avatars := avs; clients := []; timers := [] |}.

(** The state a run ends in, and whether it ends in an uncaught exception. *)
Definition state_after (evs : list Event) (s : Server) : Server :=
  match run evs s with
  | Normal (s', _) => s'
  | Throw => s
  end.

Definition throws (evs : list Event) (s : Server) : bool :=
  match run evs s with
  | Normal _ => false
  | Throw => true
  end.

(** ** Vocabulary of the specification *)

(** Player [p] holds the claim on [it]. *)
Definition holds (it : Item.t) (p : string) : Prop :=
  Item.beingCollected it = true /\ Item.collectorId it = Some p.

(** The typed failure responses ([*_error], [*_failed]). *)
Definition is_error (m : Outbound) : bool :=
  match m with
  | collection_error _ | attack_failed _ | heal_failed _ => true
  | _ => false
  end.

Definition is_world_update (m : Outbound) : bool :=
  match m with
  | world_update _ _ => true
  | _ => false
  end.

(** The sends addressed to one socket. *)
Definition sends_to (cid : string) (out : list Send) : list Outbound :=
  map snd (List.filter (fun x => String.eqb (fst x) cid) out).

Definition player_hp (s : Server) (pid : string) : option Q :=
  Player.hp <$> players s !! pid.

Definition player_name (s : Server) (pid : string) : option string :=
  Player.name <$> players s !! pid.

(** A message without the optional [playerId] field. *)
Definition plain (a : Action) : Message := {| data_playerId := None; action := a |}.

(** The squared distance between a player and a world item. *)
Definition item_dist2 (s : Server) (pid itemId : string) : option Q :=
  player ← players s !! pid;
  i ← findIndex (fun x => String.eqb (Item.itemId x) itemId) (worldItems s);
  item ← worldItems s !! i;
  Some (dist2 (Item.position item) (Player.position player)).

(** The item a [collection_complete] reports. *)
Definition completed_item (m : Outbound) : option string :=
  match m with
  | collection_complete itemId _ _ => Some itemId
  | _ => None
  end.

(** The sends to one socket, the closing broadcast left aside. *)
Definition replies_to (cid : string) (out : list Send) : list Outbound :=
  List.filter (fun m => negb (is_world_update m)) (sends_to cid out).

(** ** The specification's wording of two computations *)

(** The name filter as the specification words it: alphanumeric characters,
    the space and the hyphen. *)
Definition spec_name_char (c : ascii) : bool :=
  let n := nat_of_ascii c in
  ((65 <=? n) && (n <=? 90) || (97 <=? n) && (n <=? 122)
   || (48 <=? n) && (n <=? 57) || (n =? 32) || (n =? 45))%nat.

Definition spec_sanitize (name : string) : string :=
  substring 0 20 (filter_str spec_name_char name).

(** The damage of an attack as the specification words it: the [damage]
    field when present, else 5. *)
Definition spec_damage (data_damage : option Q) : Q :=
  match data_damage with
  | Some d => d
  | None => 5
  end.

(** ** Concrete sessions, used for the examples below *)

Definition alice : Conn := {| clientId := "c-alice"; playerId := "alice-0001" |}.
Definition bob : Conn := {| clientId := "c-bob"; playerId := "bob-0002" |}.

Definition clock (now : Z) : Env := {| Date_now := now; Math_random_1000 := 7 |}.

Definition boot : Env * Env * Env * Env := (clock 1000, clock 1000, clock 1000, clock 1000).

(** A freshly started server with one avatar file. *)
Definition server0 : Server := initial ["/images/avatars/knight.png"].

(** Alice connects, then Bob: both stand on the default position, with the
    four initial items around them. *)
Definition lobby : Server :=
  state_after [Connect alice 0 boot; Connect bob 0 boot] server0.

(** The identifiers minted for the initial sword and potion. *)
Definition sword_id : string := "iron-sword-1000-7".
Definition potion_id : string := "health-potion-1000-7".

(** Alice collects the sword and attacks Bob, who stands next to her, with
    the given [damage] field. *)
Definition duel (damage : option Q) : list Event :=
  [ Connect alice 0 boot; Connect bob 0 boot;
    Receive alice (clock 2000) (plain (pickup_item sword_id));
    Timeout 0;
    Receive alice (clock 8000)
      (plain (attack_player (playerId bob) sword_id damage)) ].

(** Alice starts collecting the sword and her connection closes. *)
Definition abandoned : list Event :=
  [ Connect alice 0 boot; Connect bob 0 boot;
    Receive alice (clock 2000) (plain (pickup_item sword_id));
    Close alice ].

(** Alice starts collecting the sword, cancels, and starts again. *)
Definition repickup : list Event :=
  [ Connect alice 0 boot;
    Receive alice (clock 2000) (plain (pickup_item sword_id));
    Receive alice (clock 6000) (plain (cancel_collection sword_id));
    Receive alice (clock 6900) (plain (pickup_item sword_id)) ].

(** Runs that put two parties exactly one threshold apart, on coordinates
    whose differences are the coordinates themselves.  Alice collects the
    potion, drops it on the origin and steps 0.001 east of it; Alice, with
    the sword or with the potion, stands on the origin and Bob 0.0002 east
    of her. *)
Definition origin : Position := {| lat := 0; lng := 0 |}.
Definition east (d : Q) : Position := {| lat := 0; lng := d |}.

Definition dropped_potion_id : string := "health-potion-9000-7".

Definition pickup_edge : list Event :=
  [ Connect alice 0 boot;
    Receive alice (clock 2000) (plain (pickup_item potion_id));
    Timeout 0;
    Receive alice (clock 8000) (plain (update_position origin));
    Receive alice (clock 9000) (plain (drop_item potion_id));
    Receive alice (clock 9500) (plain (update_position (east 0.001))) ].

Definition attack_edge : list Event :=
  [ Connect alice 0 boot; Connect bob 0 boot;
    Receive alice (clock 2000) (plain (pickup_item sword_id));
    Timeout 0;
    Receive alice (clock 8000) (plain (update_position origin));
    Receive bob (clock 8500) (plain (update_position (east 0.0002))) ].

Definition heal_edge : list Event :=
  [ Connect alice 0 boot; Connect bob 0 boot;
    Receive alice (clock 2000) (plain (pickup_item potion_id));
    Timeout 0;
    Receive alice (clock 8000) (plain (update_position origin));
    Receive bob (clock 8500) (plain (update_position (east 0.0002))) ].

(** ** Further vocabulary *)

Definition player_gold (s : Server) (pid : string) : option Q :=
  Player.gold <$> players s !! pid.

Definition player_inventory (s : Server) (pid : string) : option (list Item.t) :=
  Player.inventory <$> players s !! pid.

Definition player_avatar (s : Server) (pid : string) : option (option string) :=
  Player.avatar <$> players s !! pid.

(** The flag and the collector of an item agree: both set, or both clear. *)
Definition claim_consistent (it : Item.t) : Prop :=
  Item.beingCollected it = match Item.collectorId it with
                           | Some _ => true
                           | None => false
                           end.

(** The identifiers of [ITEM_TEMPLATES]. *)
Definition template_ids : list string :=
  ["iron-sword"; "steel-sword"; "leather-armor"; "health-potion"; "gold-coin"].

(** ** Well-formed runs *)

Definition absent {A : Type} (x : option A) : bool :=
  match x with
  | Some _ => false
  | None => true
  end.

(** What the runtime guarantees about the events it delivers: the two
    [uuidv4()] results of a connection are fresh, and messages and the close
    event arrive on a connection that was opened and not yet closed, with
    the closure variables of that connection. *)
Definition event_ok (s : Server) (ev : Event) : bool :=
  match ev with
  | Connect c _ _ =>
      absent (clientSessions s !! clientId c) && absent (players s !! playerId c)
  | Receive c _ _ => opt_str_eqb (clientSessions s !! clientId c) (playerId c)
  | Close c => opt_str_eqb (clientSessions s !! clientId c) (playerId c)
  | Timeout _ => true
  end.

Fixpoint run_ok (evs : list Event) (s : Server) : bool :=
  match evs with
  | [] => true
  | ev :: evs' =>
      event_ok s ev
      && match step ev s with
         | Normal (s1, _) => run_ok evs' s1
         | Throw => true
         end
  end.

(** Sessions and players correspond one to one. *)
Definition sessions_match_players (s : Server) : Prop :=
  (forall cid pid, clientSessions s !! cid = Some pid -> is_Some (players s !! pid))
  /\ (forall cid1 cid2 pid,
        clientSessions s !! cid1 = Some pid -> clientSessions s !! cid2 = Some pid ->
        cid1 = cid2)
  /\ (forall pid, is_Some (players s !! pid) ->
                  exists cid, clientSessions s !! cid = Some pid).

(** ** The distance expression on binary64 numbers *)

(** The examples at a threshold are also evaluated as the source evaluates
    them, on binary64 numbers with a decimal literal read as the nearest
    double; [Math.pow(x, 2)] is [x * x]. *)
Module Binary64.
Import PrimFloat.
#[local] Set Warnings "-inexact-float".
#[local] Open Scope float_scope.

Definition dist (a_lat a_lng b_lat b_lng : float) : float :=
  sqrt ((a_lat - b_lat) * (a_lat - b_lat) + (a_lng - b_lng) * (a_lng - b_lng)).

(** [dist < 0.001], the test of [pickup_item]. *)
Definition pickup_test (item_lat item_lng player_lat player_lng : float) : bool :=
  ltb (dist item_lat item_lng player_lat player_lng) 0.001.

(** [dist <= 0.0002], the test of [attack_player] and [heal_player]. *)
Definition attack_test (target_lat target_lng actor_lat actor_lng : float) : bool :=
  leb (dist target_lat target_lng actor_lat actor_lng) 0.0002.

Definition threshold_pickup : float := 0.001.
Definition threshold_attack : float := 0.0002.
Definition zero : float := 0.
End Binary64.

(** ** Targets that only [Object.prototype] knows *)

Definition found {A : Type} (x : option A) : bool :=
  match x with
  | Some _ => true
  | None => false
  end.

(** The one way a typed message of a connected player reaches the [catch]:
    an attack or a heal whose target has no record but an inherited name,
    sent with an item of the required type in the inventory, reads
    [targetPos.lat] on [undefined]. *)
Definition hits_prototype (c : Conn) (a : Action) (s : Server) : bool :=
  match players s !! playerId c with
  | Some actor =>
      match a with
      | attack_player target weaponId _ =>
          absent (players s !! target) && inherited target
          && found (findIndex (fun item => String.eqb (Item.itemId item) weaponId
                                            && ItemType_eqb (Item.type item) weapon)
                              (Player.inventory actor))
      | heal_player target itemId _ =>
          absent (players s !! target) && inherited target
          && found (findIndex (fun item => String.eqb (Item.itemId item) itemId
                                            && ItemType_eqb (Item.type item) consumable)
                              (Player.inventory actor))
      | _ => false
      end
  | None => false
  end.

(** * Properties *)

(** ** Basic facts *)

Lemma opt_str_eqb_true (a : option string) (b : string) :
  opt_str_eqb a b = true <-> a = Some b.
Proof.
  destruct a as [x|]; simpl.
  - rewrite String.eqb_eq. split; congruence.
  - split; discriminate.
Qed.

Lemma opt_str_eqb_false (a : option string) (b : string) :
  opt_str_eqb a b = false <-> a <> Some b.
Proof.
  rewrite <- opt_str_eqb_true. destruct (opt_str_eqb a b); split; congruence.
Qed.

Lemma findIndex_lt {A : Type} (f : A -> bool) (l : list A) (i : nat) :
  findIndex f l = Some i -> exists x, l !! i = Some x /\ f x = true.
Proof.
  revert i. induction l as [|y l IH]; intros i; simpl; [discriminate|].
  destruct (f y) eqn:Hy.
  - intros [= <-]. exists y. split; [reflexivity|exact Hy].
  - destruct (findIndex f l) as [j|]; simpl; [|discriminate].
    intros [= <-]. apply (IH j). reflexivity.
Qed.

Lemma findIndex_None {A : Type} (f : A -> bool) (l : list A) :
  findIndex f l = None <-> forall x, In x l -> f x = false.
Proof.
  induction l as [|y l IH]; simpl.
  - split; [intros _ x []|reflexivity].
  - destruct (f y) eqn:Hy.
    + split; [discriminate|]. intros H. rewrite (H y) in Hy; [discriminate|now left].
    + destruct (findIndex f l) as [j|]; simpl.
      * split; [discriminate|]. intros H.
        destruct IH as [_ IH]. discriminate IH. intros x Hx. apply H. now right.
      * split; [|reflexivity]. intros _ x [<-|Hx]; [exact Hy|].
        destruct IH as [IH _]. now apply IH.
Qed.

Lemma broadcast_no_error (s : Server) :
  existsb (fun x => is_error (snd x)) (broadcast s) = false.
Proof.
  unfold broadcast. induction (clients s) as [|cid l IH]; simpl; [reflexivity|exact IH].
Qed.

(** ** Proximity *)

Lemma sqrt_lt_iff (x t : Q) : sqrt_lt x t = true <-> x < t * t.
Proof.
  unfold sqrt_lt, Qlt_bool. rewrite negb_true_iff. split.
  - intros H. apply Qnot_le_lt. intros Hle.
    apply Qle_bool_iff in Hle. congruence.
  - intros H. destruct (Qle_bool (t * t) x) eqn:E; [|reflexivity].
    apply Qle_bool_iff in E. exfalso. exact (Qlt_not_le _ _ H E).
Qed.

Lemma sqrt_lt_false_iff (x t : Q) : sqrt_lt x t = false <-> t * t <= x.
Proof.
  unfold sqrt_lt, Qlt_bool. rewrite negb_false_iff. apply Qle_bool_iff.
Qed.

Lemma sqrt_le_iff (x t : Q) : sqrt_le x t = true <-> x <= t * t.
Proof. apply Qle_bool_iff. Qed.

(** The comparisons on squares are the comparisons of the real square
    root with the threshold. *)
Lemma Q2R_lt_iff (x y : Q) : x < y <-> (Q2R x < Q2R y)%R.
Proof. split; [apply Qlt_Rlt|apply Rlt_Qlt]. Qed.

Lemma Q2R_le_iff (x y : Q) : x <= y <-> (Q2R x <= Q2R y)%R.
Proof. split; [apply Qle_Rle|apply Rle_Qle]. Qed.

Lemma dist2_nonneg (a b : Position) : 0 <= dist2 a b.
Proof.
  unfold dist2, Math_pow2.
  assert (H : forall x : Q, 0 <= x * x).
  { intros [n d]. unfold Qle, Qmult. simpl. rewrite Z.mul_1_r. apply Z.square_nonneg. }
  exact (Qplus_le_compat 0 _ 0 _ (H _) (H _)).
Qed.

Lemma sqrt_lt_real (x t : Q) :
  0 <= x -> 0 <= t -> (sqrt_lt x t = true <-> (sqrt (Q2R x) < Q2R t)%R).
Proof.
  intros Hx Ht. rewrite sqrt_lt_iff, Q2R_lt_iff, Q2R_mult.
  apply Q2R_le_iff in Hx, Ht. rewrite RMicromega.Q2R_0 in Hx, Ht.
  pose proof (sqrt_square (Q2R t) Ht) as E.
  split.
  - intros H. rewrite <- E. apply sqrt_lt_1_alt. split; assumption.
  - intros H. rewrite <- E in H. apply sqrt_lt_0_alt in H. exact H.
Qed.

Lemma sqrt_le_real (x t : Q) :
  0 <= x -> 0 <= t -> (sqrt_le x t = true <-> (sqrt (Q2R x) <= Q2R t)%R).
Proof.
  intros Hx Ht. rewrite sqrt_le_iff, Q2R_le_iff, Q2R_mult.
  apply Q2R_le_iff in Hx, Ht. rewrite RMicromega.Q2R_0 in Hx, Ht.
  pose proof (sqrt_square (Q2R t) Ht) as E.
  split.
  - intros H. rewrite <- E. apply sqrt_le_1_alt. exact H.
  - intros H. rewrite <- E in H. apply sqrt_le_0 in H; [exact H|exact Hx|].
    apply Rmult_le_pos; exact Ht.
Qed.

(** ** Authorization *)

Lemma unauthorized_mismatch (c : Conn) (data : Message) (s : Server) :
  clientSessions s !! clientId c = Some (playerId c) ->
  is_view_profile (action data) = false ->
  or_str (data_playerId data) (playerId c) <> playerId c ->
  unauthorized c data s = true.
Proof.
  intros Hsess Hview Hne. unfold unauthorized, isAuthorizedForPlayer.
  rewrite Hview, Hsess. simpl.
  destruct (String.eqb_spec (or_str (data_playerId data) (playerId c)) (playerId c))
    as [E|E]; [contradiction|].
  destruct (String.eqb_spec (playerId c) (or_str (data_playerId data) (playerId c)))
    as [E'|E']; [congruence|reflexivity].
Qed.

(** C7: a message other than [view_profile] whose resolved target (the
    [playerId] field, or the session's own player when the field is absent
    or empty) differs from the player bound to the sender's session is
    dropped: the state is unchanged and nothing at all is sent, neither an
    error nor the world broadcast. *)
Theorem unauthorized_message_dropped
    (c : Conn) (e : Env) (data : Message) (s : Server) :
  clientSessions s !! clientId c = Some (playerId c) ->
  is_view_profile (action data) = false ->
  or_str (data_playerId data) (playerId c) <> playerId c ->
  on_message c e data s = (s, []).
Proof.
  intros Hsess Hview Hne. unfold on_message.
  now rewrite (unauthorized_mismatch c data s Hsess Hview Hne).
Qed.

Lemma unauthorized_message_dropped_witness :
  let data := {| data_playerId := Some (playerId bob);
                 action := update_profile (Some "Mallory") |} in
  on_message alice (clock 3000) data lobby = (lobby, []).
Proof.
  apply unauthorized_message_dropped.
  - vm_compute. reflexivity.
  - reflexivity.
  - vm_compute. discriminate.
Defined.

(** ** Pickup of an unknown item *)

(** What the handler does with a [pickup_item] whose [itemId] resolves to no
    world item: the state is unchanged and, when the message passes the
    authorization guard, the only sends are the [world_update] broadcast
    that closes every handled message. *)
Lemma pickup_unknown_item_no_response
    (c : Conn) (e : Env) (data : Message) (s : Server) (itemId : string) :
  action data = pickup_item itemId ->
  findIndex (fun item => String.eqb (Item.itemId item) itemId) (worldItems s) = None ->
  fst (on_message c e data s) = s
  /\ existsb (fun x => is_error (snd x)) (snd (on_message c e data s)) = false
  /\ (unauthorized c data s = false -> on_message c e data s = (s, broadcast s)).
Proof.
  intros Hact Hnone. unfold on_message. rewrite Hact. simpl.
  unfold pickup_item_case. rewrite Hnone.
  destruct (unauthorized c data s); simpl.
  - repeat split. discriminate.
  - repeat split. apply broadcast_no_error.
Qed.

Lemma pickup_unknown_item_no_response_witness :
  on_message alice (clock 3000) (plain (pickup_item "no-such-item")) lobby
  = (lobby, broadcast lobby).
Proof.
  apply (pickup_unknown_item_no_response alice (clock 3000)
           (plain (pickup_item "no-such-item")) lobby "no-such-item");
    vm_compute; reflexivity.
Defined.

(** C6 fails on the code: Alice asks for an item that is not in the world.
    The state is unchanged, as the claim says, but none of the sends to her
    is an error response: the branch for an unknown item only logs, where
    the two other failure branches of the same handler send
    [collection_error]. *)
Theorem pickup_unknown_item_unanswered :
  findIndex (fun item => String.eqb (Item.itemId item) "no-such-item") (worldItems lobby)
  = None
  /\ fst (on_message alice (clock 3000) (plain (pickup_item "no-such-item")) lobby) = lobby
  /\ List.filter (fun m => is_error m)
       (sends_to (clientId alice)
          (snd (on_message alice (clock 3000) (plain (pickup_item "no-such-item")) lobby)))
     = [].
Proof. split; [|split]; vm_compute; reflexivity. Qed.

(** ** The closing broadcast *)

Lemma on_message_mutation_broadcast
    (c : Conn) (e : Env) (data : Message) (s : Server) :
  fst (on_message c e data s) <> s ->
  exists out,
    snd (on_message c e data s) = (out ++ broadcast (fst (on_message c e data s)))%list.
Proof.
  unfold on_message. destruct (unauthorized c data s); simpl; [congruence|].
  destruct (dispatch c e (action data) s) as [[s' out]|]; simpl; [|congruence].
  intros _. exists out. reflexivity.
Qed.

(** C8 (amended): a [view_profile] request changes no state and produces the
    [profile_data] reply to the requester, when [players[profilePlayerId]]
    is truthy (a player's record or, for an id without a record, an
    inherited member of that name), followed by the [world_update]
    broadcast to every open session; and every message that changes the
    state ends with the broadcast of the new state. *)
Theorem view_profile_reply_and_broadcast :
  (forall (c : Conn) (e : Env) (field : option string) (pid : string) (s : Server),
      on_message c e {| data_playerId := field; action := view_profile pid |} s
      = (s, (match players s !! pid with
             | Some profile =>
                 [(clientId c,
                   profile_data (player_record profile) (String.eqb pid (playerId c)))]
             | None =>
                 if inherited pid
                 then [(clientId c,
                        profile_data (prototype_member pid) (String.eqb pid (playerId c)))]
                 else []
             end ++ broadcast s)%list))
  /\ (forall (c : Conn) (e : Env) (data : Message) (s : Server),
        fst (on_message c e data s) <> s ->
        exists out,
          snd (on_message c e data s)
          = (out ++ broadcast (fst (on_message c e data s)))%list).
Proof.
  split.
  - intros c e field pid s. unfold on_message, unauthorized. simpl.
    unfold view_profile_case. destruct (players s !! pid); [reflexivity|].
    destruct (inherited pid); reflexivity.
  - exact on_message_mutation_broadcast.
Qed.

Lemma view_profile_reply_and_broadcast_witness :
  let r := on_message alice (clock 3000) (plain (chat_message "hello")) lobby in
  exists out, snd r = (out ++ broadcast (fst r))%list.
Proof.
  apply (proj2 view_profile_reply_and_broadcast).
  intros H. apply (f_equal (fun s => Player.lastMessage <$> players s !! playerId alice)) in H.
  vm_compute in H. discriminate H.
Defined.

(** C8 as stated fails: Alice views Bob's profile and every open session,
    Bob's included, is sent a [world_update]. *)
Lemma view_profile_counterexample :
  let out := snd (on_message alice (clock 3000)
                    (plain (view_profile (playerId bob))) lobby) in
  sends_to (clientId bob) out = [world_update (players lobby) (worldItems lobby)]
  /\ map is_world_update (sends_to (clientId alice) out) = [false; true].
Proof. split; vm_compute; reflexivity. Qed.

(** ** The claim on a world item *)

Lemma holds_unique (it : Item.t) (p1 p2 : string) :
  holds it p1 -> holds it p2 -> p1 = p2.
Proof. intros [_ H1] [_ H2]. congruence. Qed.

(** A [pickup_item] never takes a claim away from its holder: whatever the
    requester and the requested item, every item that was held is still
    held by the same player afterwards. *)
Lemma pickup_keeps_holders
    (c : Conn) (itemId : string) (s s' : Server) (out : list Send)
    (j : nat) (it : Item.t) (q : string) :
  pickup_item_case c itemId s = Normal (s', out) ->
  worldItems s !! j = Some it -> holds it q ->
  worldItems s' !! j = Some it.
Proof.
  unfold pickup_item_case, with_player. intros Hrun Hj [Hflag Hcol].
  destruct (findIndex _ (worldItems s)) as [i|]; [|congruence].
  destruct (worldItems s !! i) as [item|] eqn:Hi; [|discriminate].
  destruct (players s !! playerId c) as [player|]; [|discriminate].
  destruct (sqrt_lt _ _); [|congruence].
  destruct (Item.beingCollected item) eqn:Hbc; simpl in Hrun.
  - destruct (negb _); congruence.
  - injection Hrun as <- _. simpl.
    rewrite list_lookup_insert_ne; [exact Hj|].
    intros ->. rewrite Hi in Hj. congruence.
Qed.

(** C2: a claim has one holder, and a [pickup_item] for an item that another
    player holds is answered by [collection_error] and changes nothing: the
    whole state, and with it the item's [beingCollected] flag and
    [collectorId], is as before, and no timer is scheduled.  Within range
    the error is the one of the race loss; a pickup by anyone leaves every
    held item with its holder. *)
Theorem second_pickup_rejected
    (c : Conn) (e : Env) (data : Message) (s : Server)
    (itemId : string) (i : nat) (item : Item.t) (player : Player.t) (q : string) :
  action data = pickup_item itemId ->
  unauthorized c data s = false ->
  findIndex (fun x => String.eqb (Item.itemId x) itemId) (worldItems s) = Some i ->
  worldItems s !! i = Some item ->
  players s !! playerId c = Some player ->
  holds item q ->
  q <> playerId c ->
  (exists message,
      on_message c e data s
      = (s, (clientId c, collection_error message) :: broadcast s))
  /\ (dist2 (Item.position item) (Player.position player) < 0.001 * 0.001 ->
      on_message c e data s
      = (s, (clientId c,
             collection_error "This item is being collected by another player")
            :: broadcast s))
  /\ (forall (it : Item.t) (p1 p2 : string), holds it p1 -> holds it p2 -> p1 = p2)
  /\ (forall (c' : Conn) (itemId' : string) (s' : Server) (out : list Send)
             (j : nat) (it : Item.t) (p : string),
        pickup_item_case c' itemId' s = Normal (s', out) ->
        worldItems s !! j = Some it -> holds it p ->
        worldItems s' !! j = Some it).
Proof.
  intros Hact Hauth Hfind Hi Hp [Hflag Hcol] Hne.
  assert (E : opt_str_eqb (Item.collectorId item) (playerId c) = false).
  { apply opt_str_eqb_false. rewrite Hcol. congruence. }
  assert (Hrun : on_message c e data s
                 = (s, (clientId c,
                        collection_error
                          (if sqrt_lt (dist2 (Item.position item) (Player.position player))
                                      0.001
                           then "This item is being collected by another player"
                           else "Item is too far away to collect"))
                       :: broadcast s)).
  { unfold on_message. rewrite Hauth, Hact. simpl.
    unfold pickup_item_case, with_player. rewrite Hfind, Hi, Hp, Hflag, E. simpl.
    destruct (sqrt_lt _ _); reflexivity. }
  split; [eexists; exact Hrun|].
  split.
  { intros Hnear. apply sqrt_lt_iff in Hnear. rewrite Hrun, Hnear. reflexivity. }
  split; [exact holds_unique|].
  intros c' itemId' s' out j it p. apply pickup_keeps_holders.
Qed.

Lemma second_pickup_rejected_witness :
  let s := state_after [Receive alice (clock 2000) (plain (pickup_item sword_id))] lobby in
  on_message bob (clock 2500) (plain (pickup_item sword_id)) s
  = (s, (clientId bob, collection_error "This item is being collected by another player")
        :: broadcast s).
Proof.
  intros s.
  epose proof (second_pickup_rejected bob (clock 2500) (plain (pickup_item sword_id))
                 s sword_id 1%nat _ _ (playerId alice) eq_refl) as H.
  edestruct H as (_ & Hrej & _).
  - vm_compute. reflexivity.
  - vm_compute. reflexivity.
  - vm_compute. reflexivity.
  - vm_compute. reflexivity.
  - split; vm_compute; reflexivity.
  - vm_compute. discriminate.
  - apply Hrej. vm_compute. reflexivity.
Defined.

(** ** Proximity of the requests *)

(** The distance of the handlers is symmetric. *)
Lemma dist2_sym (a b : Position) : dist2 a b == dist2 b a.
Proof. unfold dist2, Math_pow2. ring. Qed.

Lemma pickup_too_far
    (c : Conn) (e : Env) (data : Message) (s : Server)
    (itemId : string) (i : nat) (item : Item.t) (player : Player.t) :
  action data = pickup_item itemId ->
  unauthorized c data s = false ->
  findIndex (fun x => String.eqb (Item.itemId x) itemId) (worldItems s) = Some i ->
  worldItems s !! i = Some item ->
  players s !! playerId c = Some player ->
  0.001 * 0.001 <= dist2 (Item.position item) (Player.position player) ->
  on_message c e data s
  = (s, (clientId c, collection_error "Item is too far away to collect") :: broadcast s).
Proof.
  intros Hact Hauth Hfind Hi Hp Hfar. apply sqrt_lt_false_iff in Hfar.
  unfold on_message. rewrite Hauth, Hact. simpl.
  unfold pickup_item_case, with_player. rewrite Hfind, Hi, Hp, Hfar. reflexivity.
Qed.

Lemma pickup_started
    (c : Conn) (e : Env) (data : Message) (s : Server)
    (itemId : string) (i : nat) (item : Item.t) (player : Player.t) :
  action data = pickup_item itemId ->
  unauthorized c data s = false ->
  findIndex (fun x => String.eqb (Item.itemId x) itemId) (worldItems s) = Some i ->
  worldItems s !! i = Some item ->
  players s !! playerId c = Some player ->
  dist2 (Item.position item) (Player.position player) < 0.001 * 0.001 ->
  Item.beingCollected item = false ->
  let duration := or_num (Item.collectionTime item) 3000 in
  let s' := set_timers
              (timers s ++ [{| t_itemId := Item.itemId item; t_type := Item.type item;
                               t_stats := Item.stats item; t_conn := c;
                               t_delay := duration |}])%list
              (set_worldItems
                 (<[i := Item.set_claim true (Some (playerId c)) item]> (worldItems s)) s) in
  on_message c e data s
  = (s', (clientId c, collection_started (Item.itemId item) duration) :: broadcast s').
Proof.
  intros Hact Hauth Hfind Hi Hp Hnear Hfree. apply sqrt_lt_iff in Hnear.
  unfold on_message. rewrite Hauth, Hact. simpl.
  unfold pickup_item_case, with_player. rewrite Hfind, Hi, Hp, Hnear, Hfree. reflexivity.
Qed.

Lemma attack_player_accepted
    (c : Conn) (e : Env) (data : Message) (s : Server)
    (target weaponId : string) (damage : option Q)
    (tp ap : Player.t) (weaponIndex : nat) :
  action data = attack_player target weaponId damage ->
  unauthorized c data s = false ->
  players s !! target = Some tp ->
  players s !! playerId c = Some ap ->
  findIndex (fun item => String.eqb (Item.itemId item) weaponId
                         && ItemType_eqb (Item.type item) weapon)
            (Player.inventory ap) = Some weaponIndex ->
  dist2 (Player.position tp) (Player.position ap) <= 0.0002 * 0.0002 ->
  let d := or_num damage 5 in
  let newHP := Math_max 0 (Player.hp tp - d) in
  let s1 := update_player target (Player.set_hp newHP) s in
  on_message c e data s
  = (s1, ((clientId c, attack_success (Player.name tp) d)
          :: notify (find_client s1 target) (attacked (Player.name ap) d newHP)
          ++ broadcast s1)%list).
Proof.
  intros Hact Hauth Ht Ha Hw Hnear. apply sqrt_le_iff in Hnear.
  unfold on_message. rewrite Hauth, Hact. simpl.
  unfold attack_player_case, with_player. rewrite Ht, Ha, Hw, Hnear. reflexivity.
Qed.

Lemma heal_player_accepted
    (c : Conn) (e : Env) (data : Message) (s : Server)
    (target itemId : string) (healAmount : option Q)
    (tp hp : Player.t) (healItemIndex : nat) (healItem : Item.t) :
  action data = heal_player target itemId healAmount ->
  unauthorized c data s = false ->
  players s !! target = Some tp ->
  players s !! playerId c = Some hp ->
  findIndex (fun item => String.eqb (Item.itemId item) itemId
                         && ItemType_eqb (Item.type item) consumable)
            (Player.inventory hp) = Some healItemIndex ->
  Player.inventory hp !! healItemIndex = Some healItem ->
  dist2 (Player.position tp) (Player.position hp) <= 0.0002 * 0.0002 ->
  let amount := or_num (heal (Item.stats healItem)) (or_num healAmount 20) in
  let newHP := Math_min 100 (Player.hp tp + amount) in
  let s1 := update_player target (Player.set_hp newHP) s in
  let s2 := update_player (playerId c)
              (fun p => Player.set_inventory
                          (splice1 healItemIndex (Player.inventory p)) p) s1 in
  on_message c e data s
  = (s2, ((clientId c, heal_success (Player.name tp) amount)
          :: notify (find_client s2 target) (healed (Player.name hp) amount newHP)
          ++ broadcast s2)%list).
Proof.
  intros Hact Hauth Ht Hh Hw Hitem Hnear. apply sqrt_le_iff in Hnear.
  unfold on_message. rewrite Hauth, Hact. simpl.
  unfold heal_player_case, with_player. rewrite Ht, Hh, Hw, Hitem, Hnear. reflexivity.
Qed.

(** C5 fails on the code for [pickup_item]: Alice stands exactly 0.001 from
    the potion she dropped, and her pickup is rejected as too far, with the
    state unchanged; Alice's attack on Bob, who stands exactly 0.0002 from
    her, is accepted.  The binary64 evaluation of the handlers' expression
    on these coordinates agrees: the distances are the thresholds
    themselves, [dist < 0.001] is false and [dist <= 0.0002] is true. *)
Theorem pickup_at_threshold_rejected :
  let s := state_after pickup_edge server0 in
  let r := on_message alice (clock 9900) (plain (pickup_item dropped_potion_id)) s in
  let s' := state_after attack_edge server0 in
  let r' := on_message alice (clock 9000)
              (plain (attack_player (playerId bob) sword_id (Some 7))) s' in
  throws pickup_edge server0 = false
  /\ (fun d => Qeq_bool d (0.001 * 0.001)) <$> item_dist2 s (playerId alice) dropped_potion_id
     = Some true
  /\ fst r = s
  /\ replies_to (clientId alice) (snd r)
     = [collection_error "Item is too far away to collect"]
  /\ throws attack_edge server0 = false
  /\ replies_to (clientId alice) (snd r') = [attack_success "Player-bob-" 7]
  /\ Binary64.dist Binary64.zero Binary64.zero Binary64.zero Binary64.threshold_pickup
     = Binary64.threshold_pickup
  /\ Binary64.pickup_test Binary64.zero Binary64.zero
       Binary64.zero Binary64.threshold_pickup = false
  /\ Binary64.dist Binary64.zero Binary64.threshold_attack Binary64.zero Binary64.zero
     = Binary64.threshold_attack
  /\ Binary64.attack_test Binary64.zero Binary64.threshold_attack
       Binary64.zero Binary64.zero = true.
Proof.
  split; [|split; [|split; [|split; [|split; [|split; [|split; [|split; [|split]]]]]]]];
    vm_compute; reflexivity.
Qed.

(** ** Health *)

Lemma Math_max_lower (x : Q) : 0 <= Math_max 0 x.
Proof.
  unfold Math_max. destruct (Qle_bool 0 x) eqn:E.
  - now apply Qle_bool_iff.
  - apply Qle_refl.
Qed.

Lemma Math_min_upper (x : Q) : Math_min 100 x <= 100.
Proof.
  unfold Math_min. destruct (Qle_bool 100 x) eqn:E.
  - apply Qle_refl.
  - apply Qlt_le_weak, Qnot_le_lt. intros H. apply Qle_bool_iff in H. congruence.
Qed.

Lemma player_hp_update (s : Server) (pid : string) (p : Player.t) (x : Q) :
  players s !! pid = Some p ->
  player_hp (update_player pid (Player.set_hp x) s) pid = Some x.
Proof.
  intros Hp. unfold player_hp, update_player. simpl.
  rewrite lookup_alter_eq, Hp. reflexivity.
Qed.

Lemma player_hp_update_inventory
    (s : Server) (pid q : string) (g : Player.t -> list Item.t) :
  player_hp (update_player pid (fun p => Player.set_inventory (g p) p) s) q
  = player_hp s q.
Proof.
  unfold player_hp, update_player. simpl.
  destruct (decide (pid = q)) as [->|Hne].
  - rewrite lookup_alter_eq. destruct (players s !! q); reflexivity.
  - now rewrite lookup_alter_ne.
Qed.

(** What the two clamps do give: an accepted attack leaves the target's hp
    at 0 or above, an accepted heal leaves it at 100 or below. *)
Lemma attack_hp_lower_bound
    (c : Conn) (e : Env) (data : Message) (s : Server)
    (target weaponId : string) (damage : option Q)
    (tp ap : Player.t) (weaponIndex : nat) :
  action data = attack_player target weaponId damage ->
  unauthorized c data s = false ->
  players s !! target = Some tp ->
  players s !! playerId c = Some ap ->
  findIndex (fun item => String.eqb (Item.itemId item) weaponId
                         && ItemType_eqb (Item.type item) weapon)
            (Player.inventory ap) = Some weaponIndex ->
  dist2 (Player.position tp) (Player.position ap) <= 0.0002 * 0.0002 ->
  exists hp', player_hp (fst (on_message c e data s)) target = Some hp' /\ 0 <= hp'.
Proof.
  intros Hact Hauth Ht Ha Hw Hnear.
  rewrite (attack_player_accepted c e data s target weaponId damage tp ap weaponIndex
             Hact Hauth Ht Ha Hw Hnear).
  simpl. rewrite (player_hp_update s target tp _ Ht).
  eexists. split; [reflexivity|apply Math_max_lower].
Qed.

Lemma heal_hp_upper_bound
    (c : Conn) (e : Env) (data : Message) (s : Server)
    (target itemId : string) (healAmount : option Q)
    (tp hp : Player.t) (healItemIndex : nat) (healItem : Item.t) :
  action data = heal_player target itemId healAmount ->
  unauthorized c data s = false ->
  players s !! target = Some tp ->
  players s !! playerId c = Some hp ->
  findIndex (fun item => String.eqb (Item.itemId item) itemId
                         && ItemType_eqb (Item.type item) consumable)
            (Player.inventory hp) = Some healItemIndex ->
  Player.inventory hp !! healItemIndex = Some healItem ->
  dist2 (Player.position tp) (Player.position hp) <= 0.0002 * 0.0002 ->
  exists hp', player_hp (fst (on_message c e data s)) target = Some hp' /\ hp' <= 100.
Proof.
  intros Hact Hauth Ht Hh Hw Hitem Hnear.
  rewrite (heal_player_accepted c e data s target itemId healAmount tp hp
             healItemIndex healItem Hact Hauth Ht Hh Hw Hitem Hnear).
  simpl. rewrite player_hp_update_inventory, (player_hp_update s target tp _ Ht).
  eexists. split; [reflexivity|apply Math_min_upper].
Qed.

(** The hp an accepted [attack_player] leaves: [max(0, hp - d)], where [d] is
    what [data.damage || 5] evaluates to.  Nothing of the weapon, its
    [attack] stat included, enters the result. *)
Lemma attack_damage_from_message
    (c : Conn) (e : Env) (data : Message) (s : Server)
    (target weaponId : string) (damage : option Q)
    (tp ap : Player.t) (weaponIndex : nat) :
  action data = attack_player target weaponId damage ->
  unauthorized c data s = false ->
  players s !! target = Some tp ->
  players s !! playerId c = Some ap ->
  findIndex (fun item => String.eqb (Item.itemId item) weaponId
                         && ItemType_eqb (Item.type item) weapon)
            (Player.inventory ap) = Some weaponIndex ->
  dist2 (Player.position tp) (Player.position ap) <= 0.0002 * 0.0002 ->
  let hp' := player_hp (fst (on_message c e data s)) target in
  (forall q, damage = Some q -> ~ q == 0 -> hp' = Some (Math_max 0 (Player.hp tp - q)))
  /\ (forall q, damage = Some q -> q == 0 -> hp' = Some (Math_max 0 (Player.hp tp - 5)))
  /\ (damage = None -> hp' = Some (Math_max 0 (Player.hp tp - 5))).
Proof.
  intros Hact Hauth Ht Ha Hw Hnear.
  rewrite (attack_player_accepted c e data s target weaponId damage tp ap weaponIndex
             Hact Hauth Ht Ha Hw Hnear).
  simpl. rewrite (player_hp_update s target tp _ Ht).
  repeat split.
  - intros q -> Hq. simpl. destruct (Qeq_bool q 0) eqn:E; [|reflexivity].
    apply Qeq_bool_iff in E. contradiction.
  - intros q -> Hq. simpl. apply Qeq_bool_iff in Hq. rewrite Hq. reflexivity.
  - intros ->. reflexivity.
Qed.

Lemma attack_damage_from_message_witness :
  let s := state_after attack_edge server0 in
  let hp' := player_hp
               (fst (on_message alice (clock 9000)
                       (plain (attack_player (playerId bob) sword_id (Some 7))) s))
               (playerId bob) in
  exists hp : Q,
    player_hp s (playerId bob) = Some hp
    /\ (forall q, Some 7 = Some q -> ~ q == 0 -> hp' = Some (Math_max 0 (hp - q))).
Proof.
  intros s hp'.
  epose proof (attack_damage_from_message alice (clock 9000)
                 (plain (attack_player (playerId bob) sword_id (Some 7))) s
                 (playerId bob) sword_id (Some 7) _ _ 0%nat eq_refl) as H.
  edestruct H as (Hq & _).
  - vm_compute. reflexivity.
  - vm_compute. reflexivity.
  - vm_compute. reflexivity.
  - vm_compute. reflexivity.
  - vm_compute. discriminate.
  - eexists. split; [vm_compute; reflexivity|exact Hq].
Defined.

(** C10 fails on the code: Alice attacks Bob, who has 100 hp, with a [damage]
    field that is present and equal to 0.  [data.damage || 5] takes the
    default although a damage is specified, and Bob is left with 95 hp, not
    with the 100 that subtracting the field's value gives. *)
Theorem attack_zero_damage_uses_default :
  player_hp (state_after (removelast (duel (Some 0))) server0) (playerId bob) = Some 100
  /\ player_hp (state_after (duel (Some 0)) server0) (playerId bob) = Some 95
  /\ Qeq_bool 95 (Math_max 0 (100 - spec_damage (Some 0))) = false.
Proof. split; [|split]; vm_compute; reflexivity. Qed.

(** C1 fails on the code: Alice collects the sword and attacks Bob, who
    stands next to her with 100 hp, with a [damage] of -50.  The run ends
    normally and leaves Bob with 150 hp, above the maximum of 100:
    [Math.max(0, hp - damage)] bounds the result from below only. *)
Theorem attack_negative_damage_exceeds_max :
  throws (duel (Some (- 50))) server0 = false
  /\ player_hp (state_after (removelast (duel (Some (- 50)))) server0) (playerId bob)
     = Some 100
  /\ player_hp (state_after (duel (Some (- 50))) server0) (playerId bob) = Some 150
  /\ ~ 150 <= 100.
Proof.
  split; [|split; [|split]]; try (vm_compute; reflexivity).
  vm_compute. intros H. apply H. reflexivity.
Qed.

(** ** Display names *)

Lemma substring_0_length (n : nat) (s : string) :
  (String.length (substring 0 n s) <= n)%nat.
Proof.
  revert s. induction n as [|n IH]; intros [|ch s]; simpl; try lia.
  specialize (IH s). lia.
Qed.

Lemma substring_0_In (n : nat) (s : string) (ch : ascii) :
  In ch (list_ascii_of_string (substring 0 n s)) -> In ch (list_ascii_of_string s).
Proof.
  revert s. induction n as [|n IH]; intros [|x s]; simpl; try tauto.
  intros [->|H]; [now left|right; now apply IH].
Qed.

Lemma filter_str_In (keep : ascii -> bool) (s : string) (ch : ascii) :
  In ch (list_ascii_of_string (filter_str keep s)) -> keep ch = true.
Proof.
  induction s as [|x s IH]; simpl; [tauto|].
  destruct (keep x) eqn:E; simpl; [|exact IH].
  intros [<-|H]; [exact E|now apply IH].
Qed.

Lemma filter_str_id (keep : ascii -> bool) (s : string) :
  (forall ch, In ch (list_ascii_of_string s) -> keep ch = true) ->
  filter_str keep s = s.
Proof.
  induction s as [|x s IH]; simpl; [reflexivity|].
  intros H. rewrite (H x) by now left. f_equal. apply IH. intros ch Hch. apply H. now right.
Qed.

Lemma player_name_update (s : Server) (pid : string) (p : Player.t) (x : string) :
  players s !! pid = Some p ->
  player_name (update_player pid (Player.set_name x) s) pid = Some x.
Proof.
  intros Hp. unfold player_name, update_player. simpl.
  rewrite lookup_alter_eq, Hp. reflexivity.
Qed.

(** C9 (amended): after an [update_profile] that carries a non-empty name,
    the stored display name is the input without the characters outside
    the word characters (letters, digits and the underscore), the
    whitespace characters and the hyphen, cut to its first 20 characters:
    it has at most 20 characters, all of them in that set, and a name made
    of such characters only is stored as its first 20 characters. *)
Theorem update_profile_sanitized
    (c : Conn) (e : Env) (data : Message) (s : Server) (name : string) (p : Player.t) :
  action data = update_profile (Some name) ->
  unauthorized c data s = false ->
  name <> "" ->
  players s !! playerId c = Some p ->
  exists stored : string,
    player_name (fst (on_message c e data s)) (playerId c) = Some stored
    /\ stored = substring 0 20 (filter_str name_char name)
    /\ (String.length stored <= 20)%nat
    /\ (forall ch, In ch (list_ascii_of_string stored) ->
                   is_word ch = true \/ is_space ch = true \/ is_hyphen ch = true)
    /\ ((forall ch, In ch (list_ascii_of_string name) -> name_char ch = true) ->
        stored = substring 0 20 name).
Proof.
  intros Hact Hauth Hne Hp. exists (sanitize name).
  split; [|split; [reflexivity|split; [apply substring_0_length|split]]].
  - unfold on_message. rewrite Hauth, Hact. simpl. unfold update_profile_case.
    destruct name as [|x name]; [congruence|]. simpl truthy_str. cbv iota.
    unfold with_player. rewrite Hp. simpl fst.
    apply (player_name_update s (playerId c) p _ Hp).
  - intros ch Hch. apply substring_0_In, filter_str_In in Hch.
    unfold name_char in Hch. apply orb_true_iff in Hch as [Hch|Hch]; [|tauto].
    apply orb_true_iff in Hch. tauto.
  - intros Hall. unfold sanitize. now rewrite filter_str_id.
Qed.

Lemma update_profile_sanitized_witness :
  exists stored : string,
    player_name
      (fst (on_message alice (clock 3000)
              (plain (update_profile (Some "<script>Evil</script>"))) lobby))
      (playerId alice) = Some stored
    /\ stored = "scriptEvilscript".
Proof.
  destruct (update_profile_sanitized alice (clock 3000)
              (plain (update_profile (Some "<script>Evil</script>"))) lobby
              "<script>Evil</script>" (new_player (playerId alice)
                                         (Some "/images/avatars/knight.png")))
    as (stored & Hst & Heq & _).
  - reflexivity.
  - vm_compute. reflexivity.
  - discriminate.
  - vm_compute. reflexivity.
  - exists stored. split; [exact Hst|]. rewrite Heq. vm_compute. reflexivity.
Defined.

(** C9 as stated fails: the underscore is neither alphanumeric, nor a space,
    nor a hyphen, and it is kept. *)
Lemma update_profile_underscore_counterexample :
  player_name
    (fst (on_message alice (clock 3000) (plain (update_profile (Some "a_b"))) lobby))
    (playerId alice) = Some "a_b"
  /\ spec_sanitize "a_b" = "ab".
Proof. split; vm_compute; reflexivity. Qed.

(** ** Claims, disconnects and timers *)

Lemma on_close_worldItems (c : Conn) (s : Server) :
  worldItems (fst (on_close c s)) = worldItems s.
Proof. reflexivity. Qed.

(** A timer whose item is gone, or is not held by the timer's player when it
    fires, does nothing. *)
Lemma collection_timeout_noop (t : Timer) (s : Server) :
  (forall i item,
      findIndex (fun x => String.eqb (Item.itemId x) (t_itemId t)) (worldItems s) = Some i ->
      worldItems s !! i = Some item ->
      Item.collectorId item <> Some (playerId (t_conn t))) ->
  collection_timeout t s = Normal (s, []).
Proof.
  intros H. unfold collection_timeout.
  destruct (findIndex _ (worldItems s)) as [i|] eqn:Hfind; [|reflexivity].
  destruct (findIndex_lt _ _ _ Hfind) as (item & Hi & _). rewrite Hi.
  specialize (H i item eq_refl Hi). apply opt_str_eqb_false in H. rewrite H. reflexivity.
Qed.

(** C3 fails on the code: Alice starts collecting the sword and her
    connection closes.  The close handler removes her session and her
    player and leaves the sword claimed by her; Bob, who stands in range,
    is answered [collection_error], and Alice's timer ends in an uncaught
    [TypeError] instead of releasing or completing the claim. *)
Theorem disconnect_keeps_claim :
  let s := state_after abandoned server0 in
  throws abandoned server0 = false
  /\ players s !! playerId alice = None
  /\ Item.itemId <$> worldItems s !! 1%nat = Some sword_id
  /\ Item.beingCollected <$> worldItems s !! 1%nat = Some true
  /\ Item.collectorId <$> worldItems s !! 1%nat = Some (Some (playerId alice))
  /\ replies_to (clientId bob)
       (snd (on_message bob (clock 3000) (plain (pickup_item sword_id)) s))
     = [collection_error "This item is being collected by another player"]
  /\ fire_timer 0 s = Throw.
Proof.
  intros s. unfold s.
  split; [|split; [|split; [|split; [|split; [|split]]]]]; vm_compute; reflexivity.
Qed.

(** C4 fails on the code: Alice starts collecting the sword (a 5000 ms
    timer), cancels, and starts again (a second 5000 ms timer).  When the
    first, superseded timer fires, the callback finds the sword held by
    Alice and completes the collection: the sword leaves the world, enters
    her inventory and [collection_complete] is sent, although the second
    collection has only just begun. *)
Theorem superseded_timer_completes :
  let s := state_after repickup server0 in
  throws repickup server0 = false
  /\ map t_delay (timers s) = [5000; 5000]
  /\ exists s' out,
       fire_timer 0 s = Normal (s', out)
       /\ map Item.itemId (worldItems s')
          = [potion_id; "gold-coin-1000-7"; "leather-armor-1000-7"]
       /\ map Item.itemId <$> (Player.inventory <$> players s' !! playerId alice)
          = Some [sword_id]
       /\ omap completed_item (sends_to (clientId alice) out) = [sword_id]
       /\ fire_timer 0 s' = Normal (set_timers [] s', []).
Proof.
  intros s. split; [vm_compute; reflexivity|]. split; [vm_compute; reflexivity|].
  eexists. eexists. split; [vm_compute; reflexivity|].
  split; [|split; [|split]]; vm_compute; reflexivity.
Qed.
(** * Further properties of the handlers *)

(** ** Proximity is symmetric *)

Lemma Qle_bool_Qeq_l (x y t : Q) : x == y -> Qle_bool x t = Qle_bool y t.
Proof.
  intros E. destruct (Qle_bool x t) eqn:Hx, (Qle_bool y t) eqn:Hy; try reflexivity.
  - apply Qle_bool_iff in Hx. rewrite E in Hx. apply Qle_bool_iff in Hx. congruence.
  - apply Qle_bool_iff in Hy. rewrite <- E in Hy. apply Qle_bool_iff in Hy. congruence.
Qed.

Lemma Qle_bool_Qeq_r (x y t : Q) : x == y -> Qle_bool t x = Qle_bool t y.
Proof.
  intros E. destruct (Qle_bool t x) eqn:Hx, (Qle_bool t y) eqn:Hy; try reflexivity.
  - apply Qle_bool_iff in Hx. rewrite E in Hx. apply Qle_bool_iff in Hx. congruence.
  - apply Qle_bool_iff in Hy. rewrite <- E in Hy. apply Qle_bool_iff in Hy. congruence.
Qed.

(** The proximity tests of pickup, attack and heal give the same answer
    when the two positions are swapped. *)
Theorem proximity_symmetric (a b : Position) (t : Q) :
  sqrt_lt (dist2 a b) t = sqrt_lt (dist2 b a) t
  /\ sqrt_le (dist2 a b) t = sqrt_le (dist2 b a) t.
Proof.
  unfold sqrt_lt, sqrt_le, Qlt_bool. split.
  - f_equal. apply Qle_bool_Qeq_r, dist2_sym.
  - apply Qle_bool_Qeq_l, dist2_sym.
Qed.

(** ** Sanitized names *)

Lemma substring_0_all (n : nat) (s : string) :
  (String.length s <= n)%nat -> substring 0 n s = s.
Proof.
  revert s. induction n as [|n IH]; intros [|ch s]; simpl; try reflexivity; try lia.
  intros H. f_equal. apply IH. lia.
Qed.

(** Sanitizing a sanitized name changes nothing. *)
Theorem sanitize_idempotent (name : string) : sanitize (sanitize name) = sanitize name.
Proof.
  unfold sanitize at 1.
  rewrite filter_str_id.
  - apply substring_0_all, substring_0_length.
  - intros ch Hch. unfold sanitize in Hch.
    apply substring_0_In, filter_str_In in Hch. exact Hch.
Qed.

(** ** Item templates *)

(** [createItemFromTemplate] throws exactly on the identifiers that
    [ITEM_TEMPLATES] lacks; an item it creates carries the template's
    identifier, the minted instance identifier, the given position and
    collection time, and no claim. *)
Theorem createItemFromTemplate_spec
    (e : Env) (templateId : string) (pos : Position) (ctime : option Q) :
  (createItemFromTemplate e templateId pos ctime = None <-> ~ In templateId template_ids)
  /\ (forall item,
        createItemFromTemplate e templateId pos ctime = Some item ->
        Item.id item = templateId
        /\ Item.itemId item
           = templateId ++ "-" ++ show_Z (Date_now e) ++ "-" ++ show_Z (Math_random_1000 e)
        /\ Item.position item = pos
        /\ Item.collectionTime item = ctime
        /\ Item.beingCollected item = false
        /\ Item.collectorId item = None).
Proof.
  unfold createItemFromTemplate, ITEM_TEMPLATES, template_ids.
  destruct (String.eqb_spec templateId "iron-sword") as [->|H1].
  { split; [split; [discriminate|intros H; exfalso; apply H; simpl; tauto]|].
    intros item [= <-]. repeat split. }
  destruct (String.eqb_spec templateId "steel-sword") as [->|H2].
  { split; [split; [discriminate|intros H; exfalso; apply H; simpl; tauto]|].
    intros item [= <-]. repeat split. }
  destruct (String.eqb_spec templateId "leather-armor") as [->|H3].
  { split; [split; [discriminate|intros H; exfalso; apply H; simpl; tauto]|].
    intros item [= <-]. repeat split. }
  destruct (String.eqb_spec templateId "health-potion") as [->|H4].
  { split; [split; [discriminate|intros H; exfalso; apply H; simpl; tauto]|].
    intros item [= <-]. repeat split. }
  destruct (String.eqb_spec templateId "gold-coin") as [->|H5].
  { split; [split; [discriminate|intros H; exfalso; apply H; simpl; tauto]|].
    intros item [= <-]. repeat split. }
  split; [|discriminate].
  split; [|reflexivity]. intros _ Hin. simpl in Hin.
  destruct Hin as [E|[E|[E|[E|[E|[]]]]]]; congruence.
Qed.

(** ** The initial items *)

(** On an empty world [createInitialItemsNearPosition] makes four unclaimed
    items, a potion, a sword, a coin and an armor, each strictly within the
    pickup distance of the given position; on a world that has items it
    makes nothing. *)
Theorem createInitialItemsNearPosition_spec
    (es : Env * Env * Env * Env) (lat0 lng0 : Q) :
  (exists a b c d,
      createInitialItemsNearPosition es lat0 lng0 [] = Some [a; b; c; d]
      /\ map Item.type [a; b; c; d] = [consumable; weapon; collectible; armor]
      /\ Forall (fun it =>
                   Item.beingCollected it = false /\ Item.collectorId it = None
                   /\ sqrt_lt (dist2 (Item.position it) {| lat := lat0; lng := lng0 |}) 0.001
                      = true)
                [a; b; c; d])
  /\ (forall x items,
        createInitialItemsNearPosition es lat0 lng0 (x :: items) = Some (x :: items)).
Proof.
  split; [|reflexivity].
  destruct es as [[[e1 e2] e3] e4]. simpl.
  do 4 eexists. split; [reflexivity|]. split; [reflexivity|].
  assert (Hnear : forall (p : Position) (v : Q),
             dist2 p {| lat := lat0; lng := lng0 |} == v -> v < 0.001 * 0.001 ->
             sqrt_lt (dist2 p {| lat := lat0; lng := lng0 |}) 0.001 = true).
  { intros p v E Hv. apply sqrt_lt_iff. now rewrite E. }
  repeat constructor; simpl.
  - apply (Hnear _ (0.0002 * 0.0002)); [|reflexivity].
    unfold dist2, Math_pow2. simpl. ring.
  - apply (Hnear _ (0.0002 * 0.0002 + 0.0001 * 0.0001)); [|reflexivity].
    unfold dist2, Math_pow2. simpl. ring.
  - apply (Hnear _ (0.0001 * 0.0001 + 0.0001 * 0.0001)); [|reflexivity].
    unfold dist2, Math_pow2. simpl. ring.
  - apply (Hnear _ (0.0001 * 0.0001 + 0.0002 * 0.0002)); [|reflexivity].
    unfold dist2, Math_pow2. simpl. ring.
Qed.

(** ** Connections *)

Lemma createInitialItemsNearPosition_total
    (es : Env * Env * Env * Env) (lat0 lng0 : Q) (items : list Item.t) :
  exists items',
    createInitialItemsNearPosition es lat0 lng0 items = Some items'
    /\ (items <> [] -> items' = items).
Proof.
  destruct items as [|x items].
  - destruct (createInitialItemsNearPosition_spec es lat0 lng0)
      as [(a & b & c & d & E & _) _].
    exists [a; b; c; d]. split; [exact E|congruence].
  - exists (x :: items). split; reflexivity.
Qed.

(** A connection never throws.  It binds the new socket to the new player,
    who starts on the default position with 100 hp, 10 gold and an empty
    inventory; it leaves the other sessions, the other players, the pending
    timers and a non-empty world as they are; it sends [init] to the new
    socket and [player_joined] to each socket that was open before. *)
Theorem on_connection_spec
    (c : Conn) (avatarIndex : nat) (es : Env * Env * Env * Env) (s : Server) :
  exists s' out,
    on_connection c avatarIndex es s = Normal (s', out)
    /\ clientSessions s' !! clientId c = Some (playerId c)
    /\ players s' !! playerId c
       = Some (new_player (playerId c) (avatars s !! avatarIndex))
    /\ (forall cid, cid <> clientId c -> clientSessions s' !! cid = clientSessions s !! cid)
    /\ (forall pid, pid <> playerId c -> players s' !! pid = players s !! pid)
    /\ clients s' = (clients s ++ [clientId c])%list
    /\ timers s' = timers s
    /\ (worldItems s <> [] -> worldItems s' = worldItems s)
    /\ out = (clientId c,
               init (clientId c) (playerId c)
                    (new_player (playerId c) (avatars s !! avatarIndex))
                    (players s') (worldItems s') (avatars s))
              :: map (fun cid =>
                        (cid, player_joined
                                (new_player (playerId c) (avatars s !! avatarIndex))))
                     (clients s).
Proof.
  unfold on_connection.
  destruct (createInitialItemsNearPosition_total es
              (lat (Player.position (new_player (playerId c) (avatars s !! avatarIndex))))
              (lng (Player.position (new_player (playerId c) (avatars s !! avatarIndex))))
              (worldItems s)) as (items & E & Hkeep).
  simpl in E |- *. rewrite E.
  eexists. eexists. split; [reflexivity|]. simpl.
  split; [apply lookup_insert_eq|].
  split; [apply lookup_insert_eq|].
  split; [intros cid Hne; now apply lookup_insert_ne|].
  split; [intros pid Hne; now apply lookup_insert_ne|].
  split; [reflexivity|]. split; [reflexivity|]. split; [exact Hkeep|].
  reflexivity.
Qed.

(** A close removes the session and the player of the connection and takes
    its socket out of the open ones; it tells each remaining socket that
    the player left; it leaves the other sessions and players, the world
    items with their claims, and the pending timers as they are. *)
Theorem on_close_spec (c : Conn) (s : Server) :
  let s' := fst (on_close c s) in
  clientSessions s' !! clientId c = None
  /\ players s' !! playerId c = None
  /\ ~ In (clientId c) (clients s')
  /\ (forall cid, cid <> clientId c ->
        clientSessions s' !! cid = clientSessions s !! cid
        /\ (In cid (clients s') <-> In cid (clients s)))
  /\ (forall pid, pid <> playerId c -> players s' !! pid = players s !! pid)
  /\ worldItems s' = worldItems s
  /\ timers s' = timers s
  /\ snd (on_close c s) = map (fun cid => (cid, player_left (playerId c))) (clients s').
Proof.
  simpl.
  split; [apply lookup_delete_eq|].
  split; [apply lookup_delete_eq|].
  split.
  { rewrite filter_In. intros [_ H]. rewrite String.eqb_refl in H. discriminate. }
  split.
  { intros cid Hne. split; [now apply lookup_delete_ne|].
    rewrite filter_In. split; [tauto|]. intros H. split; [exact H|].
    apply negb_true_iff, String.eqb_neq. exact Hne. }
  split; [intros pid Hne; now apply lookup_delete_ne|].
  repeat split.
Qed.

(** The timer of a holder who is gone: when it fires while the item is still
    held by that player, the callback throws, and the exception is not
    caught. *)
Theorem orphan_timer_throws
    (n : nat) (t : Timer) (s : Server) (i : nat) (item : Item.t) :
  timers s !! n = Some t ->
  findIndex (fun x => String.eqb (Item.itemId x) (t_itemId t)) (worldItems s) = Some i ->
  worldItems s !! i = Some item ->
  Item.collectorId item = Some (playerId (t_conn t)) ->
  players s !! playerId (t_conn t) = None ->
  fire_timer n s = Throw.
Proof.
  intros Ht Hfind Hi Hcol Hgone. unfold fire_timer. rewrite Ht.
  unfold collection_timeout, with_player. simpl. rewrite Hfind, Hi, Hcol. simpl.
  rewrite String.eqb_refl, Hgone. reflexivity.
Qed.

Lemma orphan_timer_throws_witness :
  fire_timer 0 (state_after abandoned server0) = Throw.
Proof.
  eapply (orphan_timer_throws 0 _ (state_after abandoned server0) 1%nat).
  - vm_compute. reflexivity.
  - vm_compute. reflexivity.
  - vm_compute. reflexivity.
  - vm_compute. reflexivity.
  - vm_compute. reflexivity.
Defined.

(** ** The claim state machine *)

Lemma findIndex_and {A : Type} (f g : A -> bool) (l : list A) (i : nat) (x : A) :
  findIndex f l = Some i -> l !! i = Some x -> g x = true ->
  findIndex (fun y => f y && g y) l = Some i.
Proof.
  revert i. induction l as [|y l IH]; intros i; simpl; [discriminate|].
  destruct (f y) eqn:Hy; simpl.
  - intros [= <-] [= ->] Hg. now rewrite Hg.
  - destruct (findIndex f l) as [j|] eqn:Hj; simpl; [|discriminate].
    intros [= <-] Hx Hg. simpl in Hx. now rewrite (IH j eq_refl Hx Hg).
Qed.

Lemma findIndex_insert {A : Type} (f : A -> bool) (l : list A) (i : nat) (x x' : A) :
  l !! i = Some x -> f x' = f x -> findIndex f (<[i := x']> l) = findIndex f l.
Proof.
  revert i. induction l as [|y l IH]; intros [|i]; simpl; try discriminate.
  - intros [= ->] ->. reflexivity.
  - intros Hx Hf. now rewrite (IH i Hx Hf).
Qed.

Lemma findIndex_app_new {A : Type} (f : A -> bool) (l : list A) (x : A) :
  findIndex f l = None -> f x = true -> findIndex f (l ++ [x])%list = Some (length l).
Proof.
  induction l as [|y l IH]; simpl; intros Hnone Hx.
  - now rewrite Hx.
  - destruct (f y); [discriminate|].
    destruct (findIndex f l); [discriminate|]. now rewrite (IH eq_refl Hx).
Qed.

(** A [cancel_collection] by the holder releases the claim: the item is
    unclaimed again, the holder is told [collection_canceled], and nothing
    else changes; in particular the pending timer is not cleared. *)
Theorem cancel_by_holder_releases
    (c : Conn) (e : Env) (data : Message) (s : Server)
    (itemId : string) (i : nat) (item : Item.t) :
  action data = cancel_collection itemId ->
  unauthorized c data s = false ->
  findIndex (fun x => String.eqb (Item.itemId x) itemId) (worldItems s) = Some i ->
  worldItems s !! i = Some item ->
  Item.collectorId item = Some (playerId c) ->
  let s' := set_worldItems (<[i := Item.set_claim false None item]> (worldItems s)) s in
  on_message c e data s = (s', (clientId c, collection_canceled itemId) :: broadcast s')
  /\ worldItems s' !! i = Some (Item.set_claim false None item)
  /\ (forall j, j <> i -> worldItems s' !! j = worldItems s !! j)
  /\ timers s' = timers s.
Proof.
  intros Hact Hauth Hfind Hi Hcol s'.
  assert (Hboth : findIndex (fun x => String.eqb (Item.itemId x) itemId
                                      && opt_str_eqb (Item.collectorId x) (playerId c))
                            (worldItems s) = Some i).
  { apply (findIndex_and _ _ _ _ item Hfind Hi). now apply opt_str_eqb_true. }
  split.
  { unfold on_message. rewrite Hauth, Hact. simpl. unfold cancel_collection_case.
    rewrite Hboth, Hi. reflexivity. }
  split.
  { simpl. apply list_lookup_insert_eq. now apply lookup_lt_Some with item. }
  split; [|reflexivity].
  intros j Hne. simpl. apply list_lookup_insert_ne. congruence.
Qed.

Lemma cancel_by_holder_releases_witness :
  let s := state_after [Receive alice (clock 2000) (plain (pickup_item sword_id))] lobby in
  exists s',
    on_message alice (clock 2500) (plain (cancel_collection sword_id)) s
    = (s', (clientId alice, collection_canceled sword_id) :: broadcast s')
    /\ Item.collectorId <$> worldItems s' !! 1%nat = Some None.
Proof.
  intros s.
  epose proof (cancel_by_holder_releases alice (clock 2500)
                 (plain (cancel_collection sword_id)) s sword_id 1%nat _ eq_refl) as H.
  edestruct H as (Hrun & Hitem & _).
  - vm_compute. reflexivity.
  - vm_compute. reflexivity.
  - vm_compute. reflexivity.
  - vm_compute. reflexivity.
  - eexists. split; [exact Hrun|]. rewrite Hitem. reflexivity.
Defined.

(** A [cancel_collection] for an item that the requester does not hold (an
    unknown item, an unclaimed one, one held by somebody else) is ignored:
    no state changes and there is no reply before the closing broadcast. *)
Theorem cancel_by_non_holder_ignored
    (c : Conn) (e : Env) (data : Message) (s : Server) (itemId : string) :
  action data = cancel_collection itemId ->
  unauthorized c data s = false ->
  (forall item, In item (worldItems s) -> Item.itemId item = itemId ->
                Item.collectorId item <> Some (playerId c)) ->
  on_message c e data s = (s, broadcast s).
Proof.
  intros Hact Hauth Hnot. unfold on_message. rewrite Hauth, Hact. simpl.
  unfold cancel_collection_case.
  assert (Hnone : findIndex (fun x => String.eqb (Item.itemId x) itemId
                                      && opt_str_eqb (Item.collectorId x) (playerId c))
                            (worldItems s) = None).
  { apply findIndex_None. intros item Hin.
    destruct (String.eqb_spec (Item.itemId item) itemId) as [E|E]; [|reflexivity].
    simpl. apply opt_str_eqb_false. now apply Hnot. }
  rewrite Hnone. reflexivity.
Qed.

Lemma cancel_by_non_holder_ignored_witness :
  let s := state_after [Receive alice (clock 2000) (plain (pickup_item sword_id))] lobby in
  on_message bob (clock 2500) (plain (cancel_collection sword_id)) s = (s, broadcast s).
Proof.
  intros s.
  apply (cancel_by_non_holder_ignored bob (clock 2500)
           (plain (cancel_collection sword_id)) s sword_id).
  - reflexivity.
  - vm_compute. reflexivity.
  - intros item Hin Hid Hcol. vm_compute in Hin.
    destruct Hin as [<-|[<-|[<-|[<-|[]]]]]; vm_compute in Hid, Hcol; discriminate.
Defined.

(** ** Completion of a collection *)

Lemma reward_gold (t : Timer) (current : Item.t) (p : Player.t) (v : Q) :
  t_type t = collectible -> value (t_stats t) = Some v -> ~ v == 0 ->
  reward t current p = Player.set_gold (Player.gold p + v) p.
Proof.
  intros Hty Hv Hnz. unfold reward. rewrite Hty, Hv. simpl.
  destruct (Qeq_bool v 0) eqn:E; [|reflexivity].
  apply Qeq_bool_iff in E. contradiction.
Qed.

Lemma reward_item (t : Timer) (current : Item.t) (p : Player.t) :
  t_type t <> collectible \/ value (t_stats t) = None
  \/ (exists v, value (t_stats t) = Some v /\ v == 0) ->
  reward t current p
  = Player.set_inventory (Player.inventory p ++ [current])%list p.
Proof.
  unfold reward. intros [Hty|[Hv|(v & Hv & Hz)]].
  - destruct (value (t_stats t)); [|reflexivity].
    destruct (t_type t); try reflexivity. congruence.
  - now rewrite Hv.
  - rewrite Hv. apply Qeq_bool_iff in Hz. rewrite Hz.
    now rewrite andb_false_r.
Qed.

(** A timer that fires while its item is in the world and held by its
    player, whose record exists, completes the collection: the item leaves the world, the player
    is credited the value of a collectible with a non-zero value and is
    given the item itself otherwise, [collection_complete] goes to the
    player and the new world to everybody; the other players and the
    pending timers are untouched. *)
Theorem collection_completes
    (t : Timer) (s : Server) (i : nat) (current : Item.t) (p : Player.t) :
  findIndex (fun x => String.eqb (Item.itemId x) (t_itemId t)) (worldItems s) = Some i ->
  worldItems s !! i = Some current ->
  Item.collectorId current = Some (playerId (t_conn t)) ->
  players s !! playerId (t_conn t) = Some p ->
  exists s2 p',
    collection_timeout t s
    = Normal (s2, (clientId (t_conn t),
                   collection_complete (t_itemId t) (Player.gold p') (Player.inventory p'))
                  :: broadcast s2)
    /\ worldItems s2 = delete i (worldItems s)
    /\ players s2 !! playerId (t_conn t) = Some p'
    /\ (forall q, q <> playerId (t_conn t) -> players s2 !! q = players s !! q)
    /\ timers s2 = timers s
    /\ (forall v, t_type t = collectible -> value (t_stats t) = Some v -> ~ v == 0 ->
                  Player.gold p' = Player.gold p + v
                  /\ Player.inventory p' = Player.inventory p)
    /\ (t_type t <> collectible \/ value (t_stats t) = None
        \/ (exists v, value (t_stats t) = Some v /\ v == 0) ->
        Player.gold p' = Player.gold p
        /\ Player.inventory p' = (Player.inventory p ++ [current])%list).
Proof.
  intros Hfind Hi Hcol Hp.
  exists (set_worldItems (splice1 i (worldItems s))
            (update_player (playerId (t_conn t)) (reward t current) s)),
         (reward t current p).
  split.
  { unfold collection_timeout, with_player. rewrite Hfind, Hi, Hcol. simpl.
    rewrite String.eqb_refl, Hp. simpl. rewrite lookup_alter_eq, Hp. reflexivity. }
  split; [reflexivity|].
  split; [simpl; now rewrite lookup_alter_eq, Hp|].
  split; [intros q Hne; simpl; apply lookup_alter_ne; congruence|].
  split; [reflexivity|].
  split.
  - intros v Hty Hv Hnz. now rewrite (reward_gold t current p v Hty Hv Hnz).
  - intros H. now rewrite (reward_item t current p H).
Qed.

Lemma collection_completes_witness :
  let s := state_after [Receive alice (clock 2000) (plain (pickup_item sword_id))] lobby in
  exists s2 out,
    fire_timer 0 s = Normal (s2, out)
    /\ map Item.itemId <$> player_inventory s2 (playerId alice) = Some [sword_id].
Proof.
  intros s.
  epose proof (collection_completes
                 {| t_itemId := sword_id; t_type := weapon;
                    t_stats := {| attack := Some 5; defense := None;
                                  heal := None; value := None |};
                    t_conn := alice; t_delay := 5000 |}
                 (set_timers [] s) 1%nat) as H.
  edestruct H as (s2 & p' & Hrun & _ & Hp' & _ & _ & _ & Hinv).
  - vm_compute. reflexivity.
  - vm_compute. reflexivity.
  - vm_compute. reflexivity.
  - vm_compute. reflexivity.
  - destruct Hinv as [_ Hinv]; [left; discriminate|].
    eexists. eexists. split; [exact Hrun|].
    unfold player_inventory.
    rewrite (Hp' : players s2 !! playerId alice = Some p'). simpl.
    rewrite Hinv. vm_compute. reflexivity.
Defined.

(** A timer that fires while its item is gone, unclaimed or held by another
    player only leaves the pending list: nothing else changes and nothing
    is sent. *)
Theorem stale_timer_is_noop (n : nat) (t : Timer) (s : Server) :
  timers s !! n = Some t ->
  (forall i item,
      findIndex (fun x => String.eqb (Item.itemId x) (t_itemId t)) (worldItems s) = Some i ->
      worldItems s !! i = Some item ->
      Item.collectorId item <> Some (playerId (t_conn t))) ->
  fire_timer n s = Normal (set_timers (delete n (timers s)) s, []).
Proof.
  intros Ht Hstale. unfold fire_timer. rewrite Ht.
  apply collection_timeout_noop. exact Hstale.
Qed.

Lemma stale_timer_is_noop_witness :
  let s := state_after
             [ Connect alice 0 boot;
               Receive alice (clock 2000) (plain (pickup_item sword_id));
               Receive alice (clock 2500) (plain (cancel_collection sword_id)) ] server0 in
  fire_timer 0 s = Normal (set_timers [] s, []).
Proof.
  intros s. eapply (stale_timer_is_noop 0 _ s).
  - vm_compute. reflexivity.
  - intros i item Hfind Hi. vm_compute in Hfind. injection Hfind as <-.
    vm_compute in Hi. injection Hi as <-. discriminate.
Defined.

(** ** Pickup, from the request to the reward *)

Lemma delete_insert_same {A : Type} (l : list A) (i : nat) (x : A) :
  delete i (<[i := x]> l) = delete i l.
Proof.
  revert i. induction l as [|y l IH]; intros [|i]; simpl; try reflexivity.
  now rewrite IH.
Qed.

Lemma findIndex_itemId (itemId : string) (l : list Item.t) (i : nat) (item : Item.t) :
  findIndex (fun x => String.eqb (Item.itemId x) itemId) l = Some i ->
  l !! i = Some item -> Item.itemId item = itemId.
Proof.
  intros Hfind Hi. destruct (findIndex_lt _ _ _ Hfind) as (x & Hx & E).
  rewrite Hi in Hx. injection Hx as <-. now apply String.eqb_eq.
Qed.

(** The whole of an undisturbed collection.  A player within range picks up
    an unclaimed item, and the timer this schedules fires next: the item
    leaves the world, the pending timers are as before the pickup, and the
    player is credited the value of a collectible with a non-zero value, or
    is given the item, still marked with the claim, otherwise. *)
Theorem pickup_then_timeout
    (c : Conn) (e : Env) (data : Message) (s : Server)
    (itemId : string) (i : nat) (item : Item.t) (player : Player.t) :
  action data = pickup_item itemId ->
  unauthorized c data s = false ->
  findIndex (fun x => String.eqb (Item.itemId x) itemId) (worldItems s) = Some i ->
  worldItems s !! i = Some item ->
  players s !! playerId c = Some player ->
  dist2 (Item.position item) (Player.position player) < 0.001 * 0.001 ->
  Item.beingCollected item = false ->
  exists s2 out p',
    fire_timer (length (timers s)) (fst (on_message c e data s)) = Normal (s2, out)
    /\ worldItems s2 = delete i (worldItems s)
    /\ timers s2 = timers s
    /\ players s2 !! playerId c = Some p'
    /\ sends_to (clientId c) out
       = collection_complete itemId (Player.gold p') (Player.inventory p')
         :: sends_to (clientId c) (broadcast s2)
    /\ (forall v, Item.type item = collectible -> value (Item.stats item) = Some v ->
                  ~ v == 0 ->
                  Player.gold p' = Player.gold player + v
                  /\ Player.inventory p' = Player.inventory player)
    /\ (Item.type item <> collectible \/ value (Item.stats item) = None
        \/ (exists v, value (Item.stats item) = Some v /\ v == 0) ->
        Player.gold p' = Player.gold player
        /\ Player.inventory p'
           = (Player.inventory player
              ++ [Item.set_claim true (Some (playerId c)) item])%list).
Proof.
  intros Hact Hauth Hfind Hi Hp Hnear Hfree.
  pose proof (findIndex_itemId itemId _ i item Hfind Hi) as Hid.
  rewrite (pickup_started c e data s itemId i item player
             Hact Hauth Hfind Hi Hp Hnear Hfree).
  unfold fire_timer. simpl fst. cbn [timers set_timers].
  rewrite list_lookup_middle by reflexivity.
  rewrite delete_middle, app_nil_r.
  set (t := {| t_itemId := Item.itemId item; t_type := Item.type item;
               t_stats := Item.stats item; t_conn := c;
               t_delay := or_num (Item.collectionTime item) 3000 |}).
  set (item' := Item.set_claim true (Some (playerId c)) item).
  set (s1 := set_timers (timers s) _).
  destruct (collection_completes t s1 i item' player)
    as (s2 & p' & Hrun & Hw & Hp' & _ & Ht & Hgold & Hinv).
  - subst s1 t. simpl.
    rewrite (findIndex_insert _ _ i item item' Hi) by reflexivity.
    now rewrite Hid.
  - subst s1. simpl. apply list_lookup_insert_eq. now apply lookup_lt_Some with item.
  - reflexivity.
  - exact Hp.
  - exists s2, ((clientId c,
                 collection_complete (Item.itemId item) (Player.gold p') (Player.inventory p'))
                :: broadcast s2), p'.
    split; [exact Hrun|].
    split; [rewrite Hw; subst s1; simpl; apply delete_insert_same|].
    split; [exact Ht|]. split; [exact Hp'|].
    split.
    { unfold sends_to. simpl. rewrite String.eqb_refl, Hid. reflexivity. }
    split; [exact Hgold|exact Hinv].
Qed.

Lemma pickup_then_timeout_witness :
  exists s2 out p',
    fire_timer 0 (fst (on_message alice (clock 2000)
                         (plain (pickup_item "gold-coin-1000-7")) lobby))
    = Normal (s2, out)
    /\ players s2 !! playerId alice = Some p'
    /\ Player.gold p' = 10 + 1.
Proof.
  epose proof (pickup_then_timeout alice (clock 2000)
                 (plain (pickup_item "gold-coin-1000-7")) lobby
                 "gold-coin-1000-7" 2%nat _ _ eq_refl) as H.
  edestruct H as (s2 & out & p' & Hrun & _ & _ & Hp' & _ & Hgold & _).
  - vm_compute. reflexivity.
  - vm_compute. reflexivity.
  - vm_compute. reflexivity.
  - vm_compute. reflexivity.
  - vm_compute. reflexivity.
  - vm_compute. reflexivity.
  - exists s2, out, p'. split; [exact Hrun|]. split; [exact Hp'|].
    apply (Hgold 1); [reflexivity|reflexivity|discriminate].
Defined.

(** After the holder cancels, the item is free for anybody: a pickup by a
    player within range starts a collection for that player. *)
Theorem cancel_then_pickup
    (c c' : Conn) (e e' : Env) (data data' : Message) (s : Server)
    (itemId : string) (i : nat) (item : Item.t) (player' : Player.t) :
  action data = cancel_collection itemId ->
  unauthorized c data s = false ->
  findIndex (fun x => String.eqb (Item.itemId x) itemId) (worldItems s) = Some i ->
  worldItems s !! i = Some item ->
  Item.collectorId item = Some (playerId c) ->
  action data' = pickup_item itemId ->
  unauthorized c' data' s = false ->
  players s !! playerId c' = Some player' ->
  dist2 (Item.position item) (Player.position player') < 0.001 * 0.001 ->
  exists s2,
    on_message c' e' data' (fst (on_message c e data s))
    = (s2, (clientId c', collection_started itemId (or_num (Item.collectionTime item) 3000))
           :: broadcast s2)
    /\ worldItems s2 !! i = Some (Item.set_claim true (Some (playerId c')) item).
Proof.
  intros Hact Hauth Hfind Hi Hcol Hact' Hauth' Hp' Hnear.
  pose proof (findIndex_itemId itemId _ i item Hfind Hi) as Hid.
  destruct (cancel_by_holder_releases c e data s itemId i item Hact Hauth Hfind Hi Hcol)
    as (Hrun & Hi1 & _ & _).
  rewrite Hrun. simpl fst.
  set (s1 := set_worldItems _ s) in *.
  epose proof (pickup_started c' e' data' s1 itemId i
                 (Item.set_claim false None item) player' Hact' Hauth' _ Hi1 Hp' Hnear eq_refl)
    as Hstart.
  eexists. split.
  - rewrite Hstart. simpl. rewrite Hid. reflexivity.
  - simpl. rewrite list_lookup_insert_eq; [reflexivity|].
    rewrite length_insert. now apply lookup_lt_Some with item.
  Unshelve.
  subst s1. simpl.
  now rewrite (findIndex_insert _ _ i item (Item.set_claim false None item) Hi).
Qed.

Lemma cancel_then_pickup_witness :
  let s := state_after [Receive alice (clock 2000) (plain (pickup_item sword_id))] lobby in
  exists s2,
    on_message bob (clock 3000) (plain (pickup_item sword_id))
      (fst (on_message alice (clock 2500) (plain (cancel_collection sword_id)) s))
    = (s2, (clientId bob, collection_started sword_id (or_num (Some 5000) 3000))
           :: broadcast s2).
Proof.
  intros s.
  epose proof (cancel_then_pickup alice bob (clock 2500) (clock 3000)
                 (plain (cancel_collection sword_id)) (plain (pickup_item sword_id))
                 s sword_id 1%nat _ _ eq_refl) as H.
  edestruct H as (s2 & Hrun & _).
  - vm_compute. reflexivity.
  - vm_compute. reflexivity.
  - vm_compute. reflexivity.
  - vm_compute. reflexivity.
  - reflexivity.
  - vm_compute. reflexivity.
  - vm_compute. reflexivity.
  - vm_compute. reflexivity.
  - exists s2. exact Hrun.
Defined.

(** A second [pickup_item] by the holder of the claim never changes the state
    and never schedules a second timer.  When its proximity test passes it
    is silent, with no reply before the closing broadcast; when the test
    fails it is answered [collection_error] as too far. *)
Theorem holder_repickup_silent
    (c : Conn) (e : Env) (data : Message) (s : Server)
    (itemId : string) (i : nat) (item : Item.t) (player : Player.t) :
  action data = pickup_item itemId ->
  unauthorized c data s = false ->
  findIndex (fun x => String.eqb (Item.itemId x) itemId) (worldItems s) = Some i ->
  worldItems s !! i = Some item ->
  players s !! playerId c = Some player ->
  holds item (playerId c) ->
  (sqrt_lt (dist2 (Item.position item) (Player.position player)) 0.001 = true ->
   on_message c e data s = (s, broadcast s))
  /\ (sqrt_lt (dist2 (Item.position item) (Player.position player)) 0.001 = false ->
      on_message c e data s
      = (s, (clientId c, collection_error "Item is too far away to collect")
            :: broadcast s)).
Proof.
  intros Hact Hauth Hfind Hi Hp [Hflag Hcol].
  assert (Hrun : on_message c e data s
                 = match pickup_item_case c itemId s with
                   | Normal (s', out) => (s', (out ++ broadcast s')%list)
                   | Throw => (s, [])
                   end).
  { unfold on_message. now rewrite Hauth, Hact. }
  rewrite Hrun. unfold pickup_item_case, with_player. rewrite Hfind, Hi, Hp.
  split; intros Htest; rewrite Htest; [|reflexivity].
  rewrite Hflag, Hcol. simpl. now rewrite String.eqb_refl.
Qed.

Lemma holder_repickup_silent_witness :
  let s := state_after [Receive alice (clock 2000) (plain (pickup_item sword_id))] lobby in
  on_message alice (clock 2500) (plain (pickup_item sword_id)) s = (s, broadcast s).
Proof.
  intros s.
  epose proof (holder_repickup_silent alice (clock 2500) (plain (pickup_item sword_id))
                 s sword_id 1%nat _ _ eq_refl) as H.
  edestruct H as (Hnear & _).
  - vm_compute. reflexivity.
  - vm_compute. reflexivity.
  - vm_compute. reflexivity.
  - vm_compute. reflexivity.
  - split; vm_compute; reflexivity.
  - apply Hnear. vm_compute. reflexivity.
Defined.

(** ** Using and dropping inventory items *)

Lemma player_inventory_update_hp (s : Server) (pid q : string) (x : Q) :
  player_inventory (update_player pid (Player.set_hp x) s) q = player_inventory s q.
Proof.
  unfold player_inventory, update_player. simpl.
  destruct (decide (pid = q)) as [->|Hne].
  - rewrite lookup_alter_eq. destruct (players s !! q); reflexivity.
  - now rewrite lookup_alter_ne.
Qed.

Lemma player_inventory_update (s : Server) (pid : string) (p : Player.t)
    (g : Player.t -> list Item.t) :
  players s !! pid = Some p ->
  player_inventory (update_player pid (fun p => Player.set_inventory (g p) p) s) pid
  = Some (g p).
Proof.
  intros Hp. unfold player_inventory, update_player. simpl.
  now rewrite lookup_alter_eq, Hp.
Qed.

(** [use_item] on an item that is not in the requester's inventory does
    nothing and sends no reply before the closing broadcast. *)
Theorem use_item_not_owned
    (c : Conn) (e : Env) (data : Message) (s : Server) (itemId : string) (p : Player.t) :
  action data = use_item itemId ->
  unauthorized c data s = false ->
  players s !! playerId c = Some p ->
  (forall item, In item (Player.inventory p) -> Item.itemId item <> itemId) ->
  on_message c e data s = (s, broadcast s).
Proof.
  intros Hact Hauth Hp Hnot. unfold on_message. rewrite Hauth, Hact. simpl.
  unfold use_item_case, with_player. rewrite Hp.
  assert (Hnone : findIndex (fun x => String.eqb (Item.itemId x) itemId)
                            (Player.inventory p) = None).
  { apply findIndex_None. intros item Hin. apply String.eqb_neq. now apply Hnot. }
  rewrite Hnone. reflexivity.
Qed.

Lemma use_item_not_owned_witness :
  on_message alice (clock 3000) (plain (use_item sword_id)) lobby = (lobby, broadcast lobby).
Proof.
  eapply (use_item_not_owned alice (clock 3000) (plain (use_item sword_id)) lobby sword_id).
  - reflexivity.
  - vm_compute. reflexivity.
  - vm_compute. reflexivity.
  - intros item Hin. vm_compute in Hin. destruct Hin.
Defined.



(** What [use_item] does by item type, for an item found in the inventory:
    a weapon is readied and kept, with the state unchanged and the
    announced damage being its [attack] stat or 5; an armor and a
    collectible are removed from the inventory; a consumable without a
    [heal] stat, or with a zero one, is neither used nor removed. *)
Theorem use_item_by_type
    (c : Conn) (e : Env) (data : Message) (s : Server)
    (itemId : string) (p : Player.t) (k : nat) (item : Item.t) :
  action data = use_item itemId ->
  unauthorized c data s = false ->
  players s !! playerId c = Some p ->
  findIndex (fun x => String.eqb (Item.itemId x) itemId) (Player.inventory p) = Some k ->
  Player.inventory p !! k = Some item ->
  let removed :=
    update_player (playerId c)
      (fun q => Player.set_inventory (delete k (Player.inventory q)) q) s in
  (Item.type item = weapon ->
   on_message c e data s
   = (s, (clientId c, weapon_ready (Item.itemId item) (or_num (attack (Item.stats item)) 5))
         :: broadcast s))
  /\ (Item.type item = armor ->
      on_message c e data s = (removed, (clientId c, item_used "equip") :: broadcast removed))
  /\ (Item.type item = collectible ->
      on_message c e data s
      = (removed, (clientId c, item_used "generic") :: broadcast removed))
  /\ (Item.type item = consumable ->
      heal (Item.stats item) = None \/ (exists h, heal (Item.stats item) = Some h /\ h == 0) ->
      on_message c e data s = (s, broadcast s))
  /\ player_inventory removed (playerId c) = Some (delete k (Player.inventory p)).
Proof.
  intros Hact Hauth Hp Hfind Hk removed.
  assert (Hrun : on_message c e data s
                 = match use_item_case c itemId s with
                   | Normal (s', out) => (s', (out ++ broadcast s')%list)
                   | Throw => (s, [])
                   end).
  { unfold on_message. now rewrite Hauth, Hact. }
  rewrite Hrun. unfold use_item_case, with_player. rewrite Hp, Hfind, Hk.
  split; [intros ->; reflexivity|].
  split; [intros ->; reflexivity|].
  split; [intros ->; reflexivity|].
  split.
  - intros -> [Hn|(h & Hh & Hz)].
    + now rewrite Hn.
    + rewrite Hh. apply Qeq_bool_iff in Hz. now rewrite Hz.
  - apply (player_inventory_update s (playerId c) p
             (fun q => delete k (Player.inventory q)) Hp).
Qed.

Lemma use_item_by_type_witness :
  let s := state_after attack_edge server0 in
  on_message alice (clock 9000) (plain (use_item sword_id)) s
  = (s, (clientId alice, weapon_ready sword_id 5) :: broadcast s).
Proof.
  intros s.
  epose proof (use_item_by_type alice (clock 9000) (plain (use_item sword_id)) s
                 sword_id _ 0%nat _ eq_refl) as H.
  edestruct H as (Hweapon & _).
  - vm_compute. reflexivity.
  - vm_compute. reflexivity.
  - vm_compute. reflexivity.
  - vm_compute. reflexivity.
  - apply Hweapon. reflexivity.
Defined.

(** [drop_item] moves an inventory item into the world: it leaves the
    inventory, and a copy with a freshly minted identifier is appended to
    the world on the dropper's position, unclaimed and with a collection
    time of 1000; the items already in the world are untouched. *)
Theorem drop_item_places
    (c : Conn) (e : Env) (data : Message) (s : Server)
    (itemId : string) (p : Player.t) (k : nat) (item : Item.t) :
  action data = drop_item itemId ->
  unauthorized c data s = false ->
  players s !! playerId c = Some p ->
  findIndex (fun x => String.eqb (Item.itemId x) itemId) (Player.inventory p) = Some k ->
  Player.inventory p !! k = Some item ->
  exists s' new,
    on_message c e data s
    = (s', (clientId c, item_dropped (Item.name item)) :: broadcast s')
    /\ worldItems s' = (worldItems s ++ [new])%list
    /\ player_inventory s' (playerId c) = Some (delete k (Player.inventory p))
    /\ Item.itemId new = fresh_itemId e (Item.id item)
    /\ Item.position new = Player.position p
    /\ Item.collectionTime new = Some 1000
    /\ Item.beingCollected new = false /\ Item.collectorId new = None
    /\ Item.id new = Item.id item /\ Item.name new = Item.name item
    /\ Item.type new = Item.type item /\ Item.stats new = Item.stats item
    /\ (forall q, q <> playerId c -> players s' !! q = players s !! q)
    /\ timers s' = timers s.
Proof.
  intros Hact Hauth Hp Hfind Hk.
  eexists. eexists. split.
  { unfold on_message. rewrite Hauth, Hact. simpl.
    unfold drop_item_case, with_player. rewrite Hp, Hfind, Hk. reflexivity. }
  split; [reflexivity|].
  split.
  { simpl. apply (player_inventory_update s (playerId c) p
                    (fun q => delete k (Player.inventory q)) Hp). }
  do 9 (split; [reflexivity|]).
  split; [|reflexivity].
  intros q Hne. simpl. apply lookup_alter_ne. congruence.
Qed.

Lemma drop_item_places_witness :
  let s := state_after attack_edge server0 in
  exists s' new,
    on_message alice (clock 9000) (plain (drop_item sword_id)) s
    = (s', (clientId alice, item_dropped "Iron Sword") :: broadcast s')
    /\ worldItems s' = (worldItems s ++ [new])%list
    /\ Item.itemId new = "iron-sword-9000-7".
Proof.
  intros s.
  epose proof (drop_item_places alice (clock 9000) (plain (drop_item sword_id)) s
                 sword_id _ 0%nat _ eq_refl) as H.
  edestruct H as (s' & new & Hrun & Hw & _ & Hid & _).
  - vm_compute. reflexivity.
  - vm_compute. reflexivity.
  - vm_compute. reflexivity.
  - vm_compute. reflexivity.
  - exists s', new. split; [exact Hrun|]. split; [exact Hw|].
    rewrite Hid. vm_compute. reflexivity.
Defined.

(** A dropped item can be claimed again by the player who dropped it: once
    the pickup of the minted identifier passes the proximity test, between
    the dropper's position and the item that lies on it, the request finds
    the appended item, provided no world item already carries that
    identifier, and starts a collection of 1000 for the dropper. *)
Theorem drop_then_pickup
    (c : Conn) (e e' : Env) (data data' : Message) (s : Server)
    (itemId : string) (p : Player.t) (k : nat) (item : Item.t) :
  action data = drop_item itemId ->
  unauthorized c data s = false ->
  players s !! playerId c = Some p ->
  findIndex (fun x => String.eqb (Item.itemId x) itemId) (Player.inventory p) = Some k ->
  Player.inventory p !! k = Some item ->
  findIndex (fun x => String.eqb (Item.itemId x) (fresh_itemId e (Item.id item)))
            (worldItems s) = None ->
  action data' = pickup_item (fresh_itemId e (Item.id item)) ->
  unauthorized c data' s = false ->
  sqrt_lt (dist2 (Player.position p) (Player.position p)) 0.001 = true ->
  exists s2,
    on_message c e' data' (fst (on_message c e data s))
    = (s2, (clientId c, collection_started (fresh_itemId e (Item.id item)) 1000)
           :: broadcast s2)
    /\ exists new, worldItems s2 !! length (worldItems s) = Some new
                   /\ holds new (playerId c).
Proof.
  intros Hact Hauth Hp Hfind Hk Hfresh Hact' Hauth' Htest.
  assert (Hrun : on_message c e data s
                 = match drop_item_case c e itemId s with
                   | Normal (s', out) => (s', (out ++ broadcast s')%list)
                   | Throw => (s, [])
                   end).
  { unfold on_message. now rewrite Hauth, Hact. }
  rewrite Hrun. unfold drop_item_case, with_player. rewrite Hp, Hfind, Hk. simpl fst.
  set (new := {| Item.id := Item.id item; Item.name := _; Item.type := _;
                 Item.stats := _; Item.itemId := _; Item.position := _;
                 Item.collectionTime := _; Item.beingCollected := _;
                 Item.collectorId := _ |}).
  set (s1 := set_worldItems _ _).
  set (p1 := Player.set_inventory (delete k (Player.inventory p)) p).
  assert (Hp1 : players s1 !! playerId c = Some p1).
  { subst s1. simpl. now rewrite lookup_alter_eq, Hp. }
  assert (Hfind1 : findIndex (fun x => String.eqb (Item.itemId x)
                                         (fresh_itemId e (Item.id item)))
                             (worldItems s1) = Some (length (worldItems s))).
  { subst s1. simpl. apply findIndex_app_new; [exact Hfresh|]. apply String.eqb_refl. }
  assert (Hi1 : worldItems s1 !! length (worldItems s) = Some new).
  { subst s1. simpl. now apply list_lookup_middle. }
  assert (Hnear : dist2 (Item.position new) (Player.position p1) < 0.001 * 0.001).
  { subst new p1. simpl. now apply sqrt_lt_iff. }
  pose proof (pickup_started c e' data' s1 _ _ new p1 Hact' Hauth' Hfind1 Hi1 Hp1 Hnear
                eq_refl) as Hstart.
  eexists. split; [exact Hstart|].
  eexists. split.
  - simpl. apply list_lookup_insert_eq.
    subst s1. simpl. rewrite length_app. simpl. lia.
  - split; reflexivity.
Qed.

Lemma drop_then_pickup_witness :
  let s := state_after attack_edge server0 in
  exists s2,
    on_message alice (clock 9500) (plain (pickup_item "iron-sword-9000-7"))
      (fst (on_message alice (clock 9000) (plain (drop_item sword_id)) s))
    = (s2, (clientId alice, collection_started "iron-sword-9000-7" 1000) :: broadcast s2).
Proof.
  intros s.
  epose proof (drop_then_pickup alice (clock 9000) (clock 9500)
                 (plain (drop_item sword_id)) (plain (pickup_item "iron-sword-9000-7"))
                 s sword_id _ 0%nat _ eq_refl) as H.
  edestruct H as (s2 & Hrun & _).
  - vm_compute. reflexivity.
  - vm_compute. reflexivity.
  - vm_compute. reflexivity.
  - vm_compute. reflexivity.
  - vm_compute. reflexivity.
  - vm_compute. reflexivity.
  - vm_compute. reflexivity.
  - vm_compute. reflexivity.
  - exists s2. exact Hrun.
Defined.

(** ** Attacks and heals *)

(** How an [attack_player] is refused.  Without a record for the target, the
    reply is [attack_failed] "Target player not found!" unless the target
    id is a name that [players] inherits; for such a name the handler goes
    on as if the target existed, and either misses the weapon or throws on
    the target's position, which the [catch] swallows without a broadcast.
    With a target, a missing weapon and a failed proximity test are
    answered by their own [attack_failed].  No refusal changes the state. *)
Theorem attack_rejections
    (c : Conn) (e : Env) (data : Message) (s : Server)
    (target weaponId : string) (damage : option Q) (ap : Player.t) :
  action data = attack_player target weaponId damage ->
  unauthorized c data s = false ->
  players s !! playerId c = Some ap ->
  let weaponIndex :=
    findIndex (fun item => String.eqb (Item.itemId item) weaponId
                           && ItemType_eqb (Item.type item) weapon)
              (Player.inventory ap) in
  (players s !! target = None -> inherited target = false ->
   on_message c e data s
   = (s, (clientId c, attack_failed "Target player not found!") :: broadcast s))
  /\ (players s !! target = None -> inherited target = true ->
      (weaponIndex = None ->
       on_message c e data s
       = (s, (clientId c, attack_failed "Weapon not found in your inventory!")
             :: broadcast s))
      /\ (weaponIndex <> None -> on_message c e data s = (s, [])))
  /\ (is_Some (players s !! target) ->
      (forall item, In item (Player.inventory ap) ->
                    Item.itemId item = weaponId -> Item.type item <> weapon) ->
      on_message c e data s
      = (s, (clientId c, attack_failed "Weapon not found in your inventory!")
            :: broadcast s))
  /\ (forall tp k,
        players s !! target = Some tp ->
        weaponIndex = Some k ->
        sqrt_le (dist2 (Player.position tp) (Player.position ap)) 0.0002 = false ->
        on_message c e data s
        = (s, (clientId c, attack_failed "Target is too far away to attack!")
              :: broadcast s)).
Proof.
  intros Hact Hauth Ha weaponIndex.
  assert (Hrun : on_message c e data s
                 = match attack_player_case c target weaponId damage s with
                   | Normal (s', out) => (s', (out ++ broadcast s')%list)
                   | Throw => (s, [])
                   end).
  { unfold on_message. now rewrite Hauth, Hact. }
  rewrite Hrun. unfold attack_player_case, with_player. subst weaponIndex.
  split; [intros -> ->; reflexivity|]. split; [|split].
  - intros -> ->. rewrite Ha. split.
    + intros ->. reflexivity.
    + intros Hsome. destruct (findIndex _ _); [reflexivity|congruence].
  - intros [tp ->] Hnone. rewrite Ha.
    assert (E : findIndex (fun item => String.eqb (Item.itemId item) weaponId
                                       && ItemType_eqb (Item.type item) weapon)
                          (Player.inventory ap) = None).
    { apply findIndex_None. intros item Hin.
      destruct (String.eqb_spec (Item.itemId item) weaponId) as [E|E]; [|reflexivity].
      specialize (Hnone item Hin E). simpl.
      destruct (Item.type item); try reflexivity. congruence. }
    rewrite E. reflexivity.
  - intros tp k -> Hk Hfar. rewrite Ha, Hk, Hfar. reflexivity.
Qed.

Lemma attack_rejections_witness :
  (on_message alice (clock 3000)
     (plain (attack_player "nobody" sword_id (Some 5))) lobby
   = (lobby, (clientId alice, attack_failed "Target player not found!")
             :: broadcast lobby))
  /\ (let s := state_after attack_edge server0 in
      on_message alice (clock 9000)
        (plain (attack_player "constructor" sword_id (Some 5))) s
      = (s, [])).
Proof.
  split.
  - epose proof (attack_rejections alice (clock 3000)
                   (plain (attack_player "nobody" sword_id (Some 5))) lobby
                   "nobody" sword_id (Some 5) _ eq_refl) as H.
    edestruct H as (Hmissing & _).
    + vm_compute. reflexivity.
    + vm_compute. reflexivity.
    + apply Hmissing; vm_compute; reflexivity.
  - intros s.
    epose proof (attack_rejections alice (clock 9000)
                   (plain (attack_player "constructor" sword_id (Some 5))) s
                   "constructor" sword_id (Some 5) _ eq_refl) as H.
    edestruct H as (_ & Hproto & _).
    + vm_compute. reflexivity.
    + vm_compute. reflexivity.
    + edestruct Hproto as (_ & Hthrow).
      * vm_compute. reflexivity.
      * vm_compute. reflexivity.
      * apply Hthrow. vm_compute. discriminate.
Defined.

(** An accepted attack changes the target's hp and nothing else: the weapon
    stays in the attacker's inventory, the other players, the world items
    and the timers are as before. *)
Theorem attack_changes_only_target_hp
    (c : Conn) (e : Env) (data : Message) (s : Server)
    (target weaponId : string) (damage : option Q)
    (tp ap : Player.t) (weaponIndex : nat) :
  action data = attack_player target weaponId damage ->
  unauthorized c data s = false ->
  players s !! target = Some tp ->
  players s !! playerId c = Some ap ->
  findIndex (fun item => String.eqb (Item.itemId item) weaponId
                         && ItemType_eqb (Item.type item) weapon)
            (Player.inventory ap) = Some weaponIndex ->
  dist2 (Player.position tp) (Player.position ap) <= 0.0002 * 0.0002 ->
  let s' := fst (on_message c e data s) in
  players s' !! target
  = Some (Player.set_hp (Math_max 0 (Player.hp tp - or_num damage 5)) tp)
  /\ player_inventory s' (playerId c) = Some (Player.inventory ap)
  /\ (forall q, q <> target -> players s' !! q = players s !! q)
  /\ worldItems s' = worldItems s
  /\ timers s' = timers s.
Proof.
  intros Hact Hauth Ht Ha Hw Hnear.
  rewrite (attack_player_accepted c e data s target weaponId damage tp ap weaponIndex
             Hact Hauth Ht Ha Hw Hnear).
  simpl.
  split; [now rewrite lookup_alter_eq, Ht|].
  split.
  { rewrite player_inventory_update_hp. unfold player_inventory. now rewrite Ha. }
  split; [|split; reflexivity].
  intros q Hne. apply lookup_alter_ne. congruence.
Qed.

Lemma attack_changes_only_target_hp_witness :
  let s := state_after attack_edge server0 in
  map Item.itemId <$>
    player_inventory
      (fst (on_message alice (clock 9000)
              (plain (attack_player (playerId bob) sword_id (Some 7))) s))
      (playerId alice)
  = Some [sword_id].
Proof.
  intros s.
  epose proof (attack_changes_only_target_hp alice (clock 9000)
                 (plain (attack_player (playerId bob) sword_id (Some 7))) s
                 (playerId bob) sword_id (Some 7) _ _ 0%nat eq_refl) as H.
  edestruct H as (_ & Hinv & _).
  - vm_compute. reflexivity.
  - vm_compute. reflexivity.
  - vm_compute. reflexivity.
  - vm_compute. reflexivity.
  - vm_compute. discriminate.
  - rewrite Hinv. vm_compute. reflexivity.
Defined.

(** With a damage that is not negative, an accepted attack on a target whose
    hp is between 0 and 100 leaves it between 0 and 100. *)
Theorem attack_hp_in_bounds
    (c : Conn) (e : Env) (data : Message) (s : Server)
    (target weaponId : string) (damage : option Q)
    (tp ap : Player.t) (weaponIndex : nat) :
  action data = attack_player target weaponId damage ->
  unauthorized c data s = false ->
  players s !! target = Some tp ->
  players s !! playerId c = Some ap ->
  findIndex (fun item => String.eqb (Item.itemId item) weaponId
                         && ItemType_eqb (Item.type item) weapon)
            (Player.inventory ap) = Some weaponIndex ->
  dist2 (Player.position tp) (Player.position ap) <= 0.0002 * 0.0002 ->
  0 <= Player.hp tp -> Player.hp tp <= 100 ->
  (forall q, damage = Some q -> 0 <= q) ->
  exists hp', player_hp (fst (on_message c e data s)) target = Some hp'
              /\ 0 <= hp' /\ hp' <= 100.
Proof.
  intros Hact Hauth Ht Ha Hw Hnear Hlo Hhi Hd.
  rewrite (attack_player_accepted c e data s target weaponId damage tp ap weaponIndex
             Hact Hauth Ht Ha Hw Hnear).
  simpl. rewrite (player_hp_update s target tp _ Ht).
  eexists. split; [reflexivity|]. split; [apply Math_max_lower|].
  assert (Hdz : 0 <= or_num damage 5).
  { unfold or_num. destruct damage as [q|]; [|discriminate].
    destruct (Qeq_bool q 0); [discriminate|]. now apply Hd. }
  unfold Math_max. destruct (Qle_bool 0 (Player.hp tp - or_num damage 5)).
  - apply Qle_trans with (Player.hp tp + 0).
    + apply Qplus_le_compat; [apply Qle_refl|].
      exact (Qopp_le_compat 0 _ Hdz).
    + now rewrite Qplus_0_r.
  - discriminate.
Qed.

Lemma attack_hp_in_bounds_witness :
  let s := state_after attack_edge server0 in
  exists hp',
    player_hp (fst (on_message alice (clock 9000)
                      (plain (attack_player (playerId bob) sword_id (Some 7))) s))
              (playerId bob) = Some hp'
    /\ 0 <= hp' /\ hp' <= 100.
Proof.
  intros s.
  eapply (attack_hp_in_bounds alice (clock 9000)
            (plain (attack_player (playerId bob) sword_id (Some 7))) s
            (playerId bob) sword_id (Some 7) _ _ 0%nat).
  - reflexivity.
  - vm_compute. reflexivity.
  - vm_compute. reflexivity.
  - vm_compute. reflexivity.
  - vm_compute. reflexivity.
  - vm_compute. discriminate.
  - vm_compute. discriminate.
  - vm_compute. discriminate.
  - intros q [= <-]. vm_compute. discriminate.
Defined.

(** An accepted heal takes its amount from the item: when the consumable has
    a non-zero [heal] stat, that stat is applied whatever [healAmount] the
    message carries.  The target's hp rises by it, capped at 100, and the
    item leaves the healer's inventory. *)
Theorem heal_amount_from_item
    (c : Conn) (e : Env) (data : Message) (s : Server)
    (target itemId : string) (healAmount : option Q)
    (tp hp : Player.t) (k : nat) (healItem : Item.t) (h : Q) :
  action data = heal_player target itemId healAmount ->
  unauthorized c data s = false ->
  players s !! target = Some tp ->
  players s !! playerId c = Some hp ->
  findIndex (fun item => String.eqb (Item.itemId item) itemId
                         && ItemType_eqb (Item.type item) consumable)
            (Player.inventory hp) = Some k ->
  Player.inventory hp !! k = Some healItem ->
  dist2 (Player.position tp) (Player.position hp) <= 0.0002 * 0.0002 ->
  heal (Item.stats healItem) = Some h ->
  ~ h == 0 ->
  let s' := fst (on_message c e data s) in
  player_hp s' target = Some (Math_min 100 (Player.hp tp + h))
  /\ player_inventory s' (playerId c) = Some (delete k (Player.inventory hp))
  /\ (forall q, q <> target -> q <> playerId c -> players s' !! q = players s !! q)
  /\ worldItems s' = worldItems s.
Proof.
  intros Hact Hauth Ht Hh Hw Hitem Hnear Hstat Hnz.
  rewrite (heal_player_accepted c e data s target itemId healAmount tp hp
             k healItem Hact Hauth Ht Hh Hw Hitem Hnear).
  simpl fst.
  assert (E : or_num (heal (Item.stats healItem)) (or_num healAmount 20) = h).
  { rewrite Hstat. simpl. destruct (Qeq_bool h 0) eqn:E; [|reflexivity].
    apply Qeq_bool_iff in E. contradiction. }
  rewrite E.
  split.
  { rewrite player_hp_update_inventory. apply (player_hp_update s target tp _ Ht). }
  split.
  { unfold player_inventory, update_player. simpl. rewrite lookup_alter_eq.
    destruct (decide (target = playerId c)) as [->|Hne].
    - rewrite lookup_alter_eq, Hh. reflexivity.
    - rewrite lookup_alter_ne by exact Hne. rewrite Hh. reflexivity. }
  split; [|reflexivity].
  intros q Hq1 Hq2. simpl. rewrite !lookup_alter_ne by congruence. reflexivity.
Qed.

Lemma heal_amount_from_item_witness :
  let s := state_after heal_edge server0 in
  player_hp (fst (on_message alice (clock 9000)
                    (plain (heal_player (playerId bob) potion_id (Some 1000))) s))
            (playerId bob)
  = Some (Math_min 100 (100 + 20)).
Proof.
  intros s.
  epose proof (heal_amount_from_item alice (clock 9000)
                 (plain (heal_player (playerId bob) potion_id (Some 1000))) s
                 (playerId bob) potion_id (Some 1000) _ _ 0%nat _ 20 eq_refl) as H.
  edestruct H as (Hhp & _).
  - vm_compute. reflexivity.
  - vm_compute. reflexivity.
  - vm_compute. reflexivity.
  - vm_compute. reflexivity.
  - vm_compute. reflexivity.
  - vm_compute. discriminate.
  - vm_compute. reflexivity.
  - vm_compute. discriminate.
  - rewrite Hhp. vm_compute. reflexivity.
Defined.

(** How a [heal_player] is refused.  Without a record for the target, the
    reply is [heal_failed] "Target player not found!" unless the target id
    is a name that [players] inherits; for such a name the handler goes on
    as if the target existed, and either misses the item or throws on the
    target's position, which the [catch] swallows without a broadcast.
    With a target, a missing consumable and a failed proximity test are
    answered by their own [heal_failed].  No refusal changes the state. *)
Theorem heal_rejections
    (c : Conn) (e : Env) (data : Message) (s : Server)
    (target itemId : string) (healAmount : option Q) (hp : Player.t) :
  action data = heal_player target itemId healAmount ->
  unauthorized c data s = false ->
  players s !! playerId c = Some hp ->
  let healItemIndex :=
    findIndex (fun item => String.eqb (Item.itemId item) itemId
                           && ItemType_eqb (Item.type item) consumable)
              (Player.inventory hp) in
  (players s !! target = None -> inherited target = false ->
   on_message c e data s
   = (s, (clientId c, heal_failed "Target player not found!") :: broadcast s))
  /\ (players s !! target = None -> inherited target = true ->
      (healItemIndex = None ->
       on_message c e data s
       = (s, (clientId c, heal_failed "Healing item not found in your inventory!")
             :: broadcast s))
      /\ (healItemIndex <> None -> on_message c e data s = (s, [])))
  /\ (is_Some (players s !! target) ->
      (forall item, In item (Player.inventory hp) ->
                    Item.itemId item = itemId -> Item.type item <> consumable) ->
      on_message c e data s
      = (s, (clientId c, heal_failed "Healing item not found in your inventory!")
            :: broadcast s))
  /\ (forall tp k,
        players s !! target = Some tp ->
        healItemIndex = Some k ->
        sqrt_le (dist2 (Player.position tp) (Player.position hp)) 0.0002 = false ->
        on_message c e data s
        = (s, (clientId c, heal_failed "Target is too far away to heal!")
              :: broadcast s)).
Proof.
  intros Hact Hauth Hh healItemIndex.
  assert (Hrun : on_message c e data s
                 = match heal_player_case c target itemId healAmount s with
                   | Normal (s', out) => (s', (out ++ broadcast s')%list)
                   | Throw => (s, [])
                   end).
  { unfold on_message. now rewrite Hauth, Hact. }
  rewrite Hrun. unfold heal_player_case, with_player. subst healItemIndex.
  split; [intros -> ->; reflexivity|]. split; [|split].
  - intros -> ->. rewrite Hh. split.
    + intros ->. reflexivity.
    + intros Hsome. destruct (findIndex _ _); [reflexivity|congruence].
  - intros [tp ->] Hnone. rewrite Hh.
    assert (E : findIndex (fun item => String.eqb (Item.itemId item) itemId
                                       && ItemType_eqb (Item.type item) consumable)
                          (Player.inventory hp) = None).
    { apply findIndex_None. intros item Hin.
      destruct (String.eqb_spec (Item.itemId item) itemId) as [E|E]; [|reflexivity].
      specialize (Hnone item Hin E). simpl.
      destruct (Item.type item); try reflexivity. congruence. }
    rewrite E. reflexivity.
  - intros tp k -> Hk Hfar. rewrite Hh, Hk.
    destruct (findIndex_lt _ _ _ Hk) as (item & Hitem & _). rewrite Hitem, Hfar.
    reflexivity.
Qed.

Lemma heal_rejections_witness :
  (on_message alice (clock 3000)
     (plain (heal_player "nobody" potion_id None)) lobby
   = (lobby, (clientId alice, heal_failed "Target player not found!")
             :: broadcast lobby))
  /\ (let s := state_after heal_edge server0 in
      on_message alice (clock 9000)
        (plain (heal_player "toString" potion_id None)) s
      = (s, [])).
Proof.
  split.
  - epose proof (heal_rejections alice (clock 3000)
                   (plain (heal_player "nobody" potion_id None)) lobby
                   "nobody" potion_id None _ eq_refl) as H.
    edestruct H as (Hmissing & _).
    + vm_compute. reflexivity.
    + vm_compute. reflexivity.
    + apply Hmissing; vm_compute; reflexivity.
  - intros s.
    epose proof (heal_rejections alice (clock 9000)
                   (plain (heal_player "toString" potion_id None)) s
                   "toString" potion_id None _ eq_refl) as H.
    edestruct H as (_ & Hproto & _).
    + vm_compute. reflexivity.
    + vm_compute. reflexivity.
    + edestruct Hproto as (_ & Hthrow).
      * vm_compute. reflexivity.
      * vm_compute. reflexivity.
      * apply Hthrow. vm_compute. discriminate.
Defined.

(** ** Avatars *)

(** [update_avatar] stores the avatar only when it is one of the server's
    avatars; any other value leaves the state unchanged. *)
Theorem update_avatar_checked
    (c : Conn) (e : Env) (data : Message) (s : Server) (avatar : string) (p : Player.t) :
  action data = update_avatar avatar ->
  unauthorized c data s = false ->
  players s !! playerId c = Some p ->
  (In avatar (avatars s) ->
   player_avatar (fst (on_message c e data s)) (playerId c) = Some (Some avatar))
  /\ (~ In avatar (avatars s) -> on_message c e data s = (s, broadcast s)).
Proof.
  intros Hact Hauth Hp.
  assert (Hrun : on_message c e data s
                 = match update_avatar_case c avatar s with
                   | Normal (s', out) => (s', (out ++ broadcast s')%list)
                   | Throw => (s, [])
                   end).
  { unfold on_message. now rewrite Hauth, Hact. }
  rewrite Hrun. unfold update_avatar_case, with_player. split.
  - intros Hin.
    assert (E : existsb (String.eqb avatar) (avatars s) = true).
    { apply existsb_exists. exists avatar. split; [exact Hin|apply String.eqb_refl]. }
    rewrite E, Hp. simpl. unfold player_avatar, update_player. simpl.
    now rewrite lookup_alter_eq, Hp.
  - intros Hnot.
    assert (E : existsb (String.eqb avatar) (avatars s) = false).
    { destruct (existsb _ _) eqn:E; [|reflexivity].
      apply existsb_exists in E as (x & Hx & Heq). apply String.eqb_eq in Heq.
      subst x. contradiction. }
    rewrite E. reflexivity.
Qed.

Lemma update_avatar_checked_witness :
  on_message alice (clock 3000) (plain (update_avatar "https://evil.example/x.png")) lobby
  = (lobby, broadcast lobby).
Proof.
  epose proof (update_avatar_checked alice (clock 3000)
                 (plain (update_avatar "https://evil.example/x.png")) lobby
                 "https://evil.example/x.png" _ eq_refl) as H.
  edestruct H as (_ & Hnot).
  - vm_compute. reflexivity.
  - vm_compute. reflexivity.
  - apply Hnot. vm_compute. intros [H1|[]]. discriminate H1.
Defined.

(** ** What a message never touches *)

Lemma dispatch_frame (c : Conn) (e : Env) (a : Action) (s s' : Server) (out : list Send) :
  dispatch c e a s = Normal (s', out) ->
  clientSessions s' = clientSessions s
  /\ clients s' = clients s
  /\ avatars s' = avatars s
  /\ dom (players s') = dom (players s)
  /\ (length (worldItems s) <= length (worldItems s'))%nat
  /\ (exists new, timers s' = (timers s ++ new)%list /\ (length new <= 1)%nat)
  /\ ((forall itemId, a <> pickup_item itemId) -> timers s' = timers s).
Proof.
  intros Hrun.
  assert (Hnil : exists new, timers s = (timers s ++ new)%list /\ (length new <= 1)%nat).
  { exists []. split; [now rewrite app_nil_r|simpl; lia]. }
  destruct a; simpl in Hrun;
    unfold update_position_case, chat_message_case, pickup_item_case,
           cancel_collection_case, use_item_case, attack_player_case,
           heal_player_case, drop_item_case, view_profile_case,
           update_profile_case, update_avatar_case, with_player, consumeWeapon in Hrun;
    repeat case_match; simplify_eq; simpl;
    rewrite ?dom_alter_L, ?length_insert, ?length_app; simpl;
    repeat split; try reflexivity; try lia; try exact Hnil; try congruence.
  - eexists. split; [reflexivity|simpl; lia].
  - intros Hno. exfalso. eapply Hno. reflexivity.
Qed.

(** Handling a message never changes the session table, the set of open
    sockets or the avatar list, never creates or deletes a player, never
    takes an item out of the world and never removes a pending timer; it
    schedules at most one timer, and only a [pickup_item] schedules one. *)
Theorem on_message_frame (c : Conn) (e : Env) (data : Message) (s : Server) :
  let s' := fst (on_message c e data s) in
  clientSessions s' = clientSessions s
  /\ clients s' = clients s
  /\ avatars s' = avatars s
  /\ dom (players s') = dom (players s)
  /\ (length (worldItems s) <= length (worldItems s'))%nat
  /\ (exists new, timers s' = (timers s ++ new)%list /\ (length new <= 1)%nat)
  /\ ((forall itemId, action data <> pickup_item itemId) -> timers s' = timers s).
Proof.
  assert (Hsame : clientSessions s = clientSessions s
                  /\ clients s = clients s /\ avatars s = avatars s
                  /\ dom (players s) = dom (players s)
                  /\ (length (worldItems s) <= length (worldItems s))%nat
                  /\ (exists new, timers s = (timers s ++ new)%list /\ (length new <= 1)%nat)
                  /\ ((forall itemId, action data <> pickup_item itemId) ->
                      timers s = timers s)).
  { repeat split; try lia. exists []. split; [now rewrite app_nil_r|simpl; lia]. }
  unfold on_message. destruct (unauthorized c data s); [exact Hsame|].
  destruct (dispatch c e (action data) s) as [[s' out]|] eqn:E; [|exact Hsame].
  simpl. exact (dispatch_frame c e (action data) s s' out E).
Qed.

(** ** Invariants of the runs *)

Lemma dispatch_claims_consistent
    (c : Conn) (e : Env) (a : Action) (s s' : Server) (out : list Send) :
  dispatch c e a s = Normal (s', out) ->
  Forall claim_consistent (worldItems s) -> Forall claim_consistent (worldItems s').
Proof.
  intros Hrun Hall.
  destruct a; simpl in Hrun;
    unfold update_position_case, chat_message_case, pickup_item_case,
           cancel_collection_case, use_item_case, attack_player_case,
           heal_player_case, drop_item_case, view_profile_case,
           update_profile_case, update_avatar_case, with_player, consumeWeapon in Hrun;
    repeat case_match; simplify_eq; simpl; try exact Hall.
  - apply Forall_insert; [exact Hall|reflexivity].
  - apply Forall_insert; [exact Hall|reflexivity].
  - apply Forall_app. split; [exact Hall|]. repeat constructor.
Qed.

Lemma createInitialItems_consistent
    (es : Env * Env * Env * Env) (lat0 lng0 : Q) (items items' : list Item.t) :
  createInitialItemsNearPosition es lat0 lng0 items = Some items' ->
  Forall claim_consistent items -> Forall claim_consistent items'.
Proof.
  destruct items as [|x l].
  - intros E _.
    destruct (createInitialItemsNearPosition_spec es lat0 lng0)
      as [(i1 & i2 & i3 & i4 & E' & _ & Hfour) _].
    rewrite E' in E. injection E as <-.
    eapply Forall_impl; [exact Hfour|].
    intros it (Hflag & Hcol & _). unfold claim_consistent. now rewrite Hflag, Hcol.
  - intros [= <-] Hall. exact Hall.
Qed.

Lemma step_claims_consistent (ev : Event) (s s' : Server) (out : list Send) :
  step ev s = Normal (s', out) ->
  Forall claim_consistent (worldItems s) -> Forall claim_consistent (worldItems s').
Proof.
  intros Hstep Hall. destruct ev as [c k es|c e data|n|c]; simpl in Hstep.
  - unfold on_connection in Hstep.
    destruct (createInitialItemsNearPosition es _ _ _) as [items|] eqn:E; [|discriminate].
    injection Hstep as <- _.
    exact (createInitialItems_consistent es _ _ _ items E Hall).
  - injection Hstep as Hs. unfold on_message in Hs.
    destruct (unauthorized c data s); [injection Hs as <- _; exact Hall|].
    destruct (dispatch c e (action data) s) as [[s1 out1]|] eqn:E;
      [|injection Hs as <- _; exact Hall].
    injection Hs as <- _. exact (dispatch_claims_consistent c e _ s s1 out1 E Hall).
  - unfold fire_timer in Hstep. destruct (timers s !! n) as [t|]; [|now simplify_eq].
    unfold collection_timeout, with_player in Hstep. simpl in Hstep.
    repeat case_match; simplify_eq; simpl; try exact Hall.
    now apply Forall_delete.
  - injection Hstep as <- _. exact Hall.
Qed.

Lemma run_claims_consistent (evs : list Event) (s s' : Server) (out : list Send) :
  run evs s = Normal (s', out) ->
  Forall claim_consistent (worldItems s) -> Forall claim_consistent (worldItems s').
Proof.
  revert s out. induction evs as [|ev evs IH]; intros s out; simpl.
  - intros [= <- _] Hall. exact Hall.
  - destruct (step ev s) as [[s1 out1]|] eqn:E; [|discriminate].
    destruct (run evs s1) as [[s2 out2]|] eqn:E2; [|discriminate].
    intros [= <- _] Hall.
    exact (IH s1 out2 E2 (step_claims_consistent ev s s1 out1 E Hall)).
Qed.

(** In every state the server can reach, the flag and the collector of each
    world item agree: [beingCollected] is set exactly when [collectorId]
    names a player. *)
Theorem reachable_claims_consistent
    (evs : list Event) (avs : list string) (s : Server) (out : list Send) :
  run evs (initial avs) = Normal (s, out) ->
  forall it, In it (worldItems s) ->
    (Item.beingCollected it = true <-> is_Some (Item.collectorId it))
    /\ (forall p, Item.collectorId it = Some p -> holds it p).
Proof.
  intros Hrun it Hin.
  pose proof (run_claims_consistent evs (initial avs) s out Hrun (List.Forall_nil _)) as Hall.
  rewrite Forall_forall in Hall. specialize (Hall it).
  assert (Hc : claim_consistent it) by (apply Hall, list_elem_of_In, Hin).
  unfold claim_consistent in Hc. split.
  - destruct (Item.collectorId it) as [p|]; rewrite Hc; split; try discriminate; eauto.
    intros [x Hx]. discriminate.
  - intros p Hp. split; [|exact Hp]. now rewrite Hc, Hp.
Qed.

Lemma reachable_claims_consistent_witness :
  exists it,
    worldItems (state_after repickup server0) !! 1%nat = Some it
    /\ (Item.beingCollected it = true <-> is_Some (Item.collectorId it))
    /\ holds it (playerId alice).
Proof.
  eexists. split; [vm_compute; reflexivity|].
  edestruct (reachable_claims_consistent repickup ["/images/avatars/knight.png"])
    as (Hiff & Hholds).
  - vm_compute. reflexivity.
  - vm_compute. right. left. reflexivity.
  - split; [exact Hiff|]. apply Hholds. reflexivity.
Defined.

Lemma fire_timer_frame (n : nat) (s s' : Server) (out : list Send) :
  fire_timer n s = Normal (s', out) ->
  clientSessions s' = clientSessions s /\ dom (players s') = dom (players s).
Proof.
  unfold fire_timer. destruct (timers s !! n) as [t|]; [|intros [= <- _]; now split].
  unfold collection_timeout, with_player. simpl. intros Hrun.
  repeat case_match; simplify_eq; simpl; rewrite ?dom_alter_L; now split.
Qed.

Lemma sessions_match_players_frame (s s' : Server) :
  clientSessions s' = clientSessions s -> dom (players s') = dom (players s) ->
  sessions_match_players s -> sessions_match_players s'.
Proof.
  intros Hs Hd (Hlive & Hinj & Hown).
  assert (Hsome : forall pid, is_Some (players s' !! pid) <-> is_Some (players s !! pid)).
  { intros pid. rewrite <- !elem_of_dom, Hd. reflexivity. }
  split; [|split].
  - intros cid pid H. rewrite Hs in H. apply Hsome. eauto.
  - intros cid1 cid2 pid H1 H2. rewrite Hs in H1, H2. eauto.
  - intros pid H. apply Hsome in H. rewrite Hs. eauto.
Qed.

Lemma step_sessions_match_players (ev : Event) (s s' : Server) (out : list Send) :
  event_ok s ev = true ->
  step ev s = Normal (s', out) ->
  sessions_match_players s -> sessions_match_players s'.
Proof.
  intros Hok Hstep Hinv. destruct ev as [c k es|c e data|n|c]; simpl in Hstep, Hok.
  - destruct (on_connection_spec c k es s)
      as (s1 & out1 & E & Hs & Hp & Hso & Hpo & _).
    rewrite E in Hstep. injection Hstep as <- _.
    apply andb_true_iff in Hok as [Hnc Hnp].
    destruct (clientSessions s !! clientId c) eqn:Hc; [discriminate|].
    destruct (players s !! playerId c) eqn:Hpl; [discriminate|].
    destruct Hinv as (Hlive & Hinj & Hown).
    split; [|split].
    + intros cid pid H. destruct (decide (cid = clientId c)) as [->|Hne].
      * rewrite Hs in H. injection H as <-. rewrite Hp. eauto.
      * rewrite (Hso cid Hne) in H. pose proof (Hlive cid pid H) as Hl.
        destruct (decide (pid = playerId c)) as [->|Hne'].
        -- rewrite Hpl in Hl. destruct Hl. discriminate.
        -- now rewrite (Hpo pid Hne').
    + intros cid1 cid2 pid H1 H2.
      destruct (decide (cid1 = clientId c)) as [->|Hne1],
               (decide (cid2 = clientId c)) as [->|Hne2]; try reflexivity.
      * rewrite Hs in H1. injection H1 as <-. rewrite (Hso cid2 Hne2) in H2.
        pose proof (Hlive cid2 _ H2) as Hl. rewrite Hpl in Hl. destruct Hl. discriminate.
      * rewrite Hs in H2. injection H2 as <-. rewrite (Hso cid1 Hne1) in H1.
        pose proof (Hlive cid1 _ H1) as Hl. rewrite Hpl in Hl. destruct Hl. discriminate.
      * rewrite (Hso cid1 Hne1) in H1. rewrite (Hso cid2 Hne2) in H2. eauto.
    + intros pid H. destruct (decide (pid = playerId c)) as [->|Hne].
      * exists (clientId c). exact Hs.
      * rewrite (Hpo pid Hne) in H. destruct (Hown pid H) as (cid & Hcid).
        exists cid. rewrite Hso; [exact Hcid|]. intros ->. congruence.
  - injection Hstep as Hrun.
    destruct (on_message_frame c e data s) as (Hs & _ & _ & Hd & _).
    rewrite Hrun in Hs, Hd. simpl in Hs, Hd.
    exact (sessions_match_players_frame s s' Hs Hd Hinv).
  - destruct (fire_timer_frame n s s' out Hstep) as (Hs & Hd).
    exact (sessions_match_players_frame s _ Hs Hd Hinv).
  - injection Hstep as <- _. apply opt_str_eqb_true in Hok.
    destruct Hinv as (Hlive & Hinj & Hown).
    unfold sessions_match_players. simpl.
    split; [|split].
    + intros cid pid H. apply lookup_delete_Some in H as [Hne H].
      rewrite lookup_delete_ne; [eauto|].
      intros <-. apply Hne. symmetry. eauto.
    + intros cid1 cid2 pid H1 H2.
      apply lookup_delete_Some in H1 as [_ H1]. apply lookup_delete_Some in H2 as [_ H2].
      eauto.
    + intros pid H. apply lookup_delete_is_Some in H as [Hne H].
      destruct (Hown pid H) as (cid & Hcid). exists cid.
      rewrite lookup_delete_ne; [exact Hcid|]. intros <-. congruence.
Qed.

Lemma run_sessions_match_players (evs : list Event) (s s' : Server) (out : list Send) :
  run_ok evs s = true ->
  run evs s = Normal (s', out) ->
  sessions_match_players s -> sessions_match_players s'.
Proof.
  revert s out. induction evs as [|ev evs IH]; intros s out; simpl.
  - intros _ [= <- _] Hinv. exact Hinv.
  - intros Hok. apply andb_true_iff in Hok as [Hev Hrest].
    destruct (step ev s) as [[s1 out1]|] eqn:E; [|discriminate].
    destruct (run evs s1) as [[s2 out2]|] eqn:E2; [|discriminate].
    intros [= <- _] Hinv.
    exact (IH s1 out2 Hrest E2 (step_sessions_match_players ev s s1 out1 Hev E Hinv)).
Qed.

(** In every state the server reaches through events that the runtime can
    deliver (fresh identifiers at connect; messages and closes on open
    connections), sessions and players correspond one to one: each session
    names a player that exists, no two sessions name the same player, and
    each player is named by a session. *)
Theorem reachable_sessions_match_players
    (evs : list Event) (avs : list string) (s : Server) (out : list Send) :
  run_ok evs (initial avs) = true ->
  run evs (initial avs) = Normal (s, out) ->
  (forall cid pid, clientSessions s !! cid = Some pid -> is_Some (players s !! pid))
  /\ (forall cid1 cid2 pid,
        clientSessions s !! cid1 = Some pid -> clientSessions s !! cid2 = Some pid ->
        cid1 = cid2)
  /\ (forall pid, is_Some (players s !! pid) ->
                  exists cid, clientSessions s !! cid = Some pid).
Proof.
  intros Hok Hrun.
  apply (run_sessions_match_players evs (initial avs) s out Hok Hrun).
  split; [|split].
  - intros cid pid H. simpl in H. rewrite lookup_empty in H. discriminate.
  - intros cid1 cid2 pid H. simpl in H. rewrite lookup_empty in H. discriminate.
  - intros pid [p H]. simpl in H. rewrite lookup_empty in H. discriminate.
Qed.

Lemma reachable_sessions_match_players_witness :
  is_Some (players (state_after abandoned server0) !! playerId bob).
Proof.
  edestruct (reachable_sessions_match_players abandoned ["/images/avatars/knight.png"])
    as (Hlive & _).
  - vm_compute. reflexivity.
  - vm_compute. reflexivity.
  - apply (Hlive (clientId bob)). vm_compute. reflexivity.
Defined.

(** When a typed message from a connection whose player exists reaches the
    [catch].  It does so exactly when it is an attack or a heal whose target
    has no record but a name that [players] inherits, sent with the named
    item held: the state is then unchanged and nothing is sent.  Every
    other message runs its case to the end and the handler closes with the
    broadcast of the new state. *)
Theorem message_throws_only_on_prototype
    (c : Conn) (e : Env) (data : Message) (s : Server) (p : Player.t) :
  players s !! playerId c = Some p ->
  unauthorized c data s = false ->
  (hits_prototype c (action data) s = true ->
   dispatch c e (action data) s = Throw /\ on_message c e data s = (s, []))
  /\ (hits_prototype c (action data) s = false ->
      exists s' out,
        dispatch c e (action data) s = Normal (s', out)
        /\ on_message c e data s = (s', (out ++ broadcast s')%list)).
Proof.
  intros Hp Hauth.
  assert (Hcatch : dispatch c e (action data) s = Throw ->
                   on_message c e data s = (s, [])).
  { intros E. unfold on_message. now rewrite Hauth, E. }
  assert (Hdone : forall s' out,
             dispatch c e (action data) s = Normal (s', out) ->
             on_message c e data s = (s', (out ++ broadcast s')%list)).
  { intros s' out E. unfold on_message. now rewrite Hauth, E. }
  assert (Hiff : hits_prototype c (action data) s = true
                 <-> dispatch c e (action data) s = Throw).
  { unfold hits_prototype. rewrite Hp.
    destruct (action data); simpl;
      unfold update_position_case, chat_message_case, pickup_item_case,
             cancel_collection_case, use_item_case, attack_player_case,
             heal_player_case, drop_item_case, view_profile_case,
             update_profile_case, update_avatar_case, with_player;
      rewrite ?Hp;
      repeat case_match; simpl; split; try discriminate; try reflexivity;
      try (intros _;
           repeat match goal with
                  | H : findIndex _ ?l = Some ?i, H' : ?l !! ?i = None |- _ =>
                      destruct (findIndex_lt _ _ _ H) as (? & ? & _); congruence
                  end). }
  split.
  - intros Hhit. apply Hiff in Hhit. split; [exact Hhit|exact (Hcatch Hhit)].
  - intros Hmiss.
    destruct (dispatch c e (action data) s) as [[s' out]|] eqn:E.
    + exists s', out. split; [reflexivity|exact (Hdone s' out eq_refl)].
    + destruct Hiff as [_ Hback]. rewrite (Hback eq_refl) in Hmiss. discriminate.
Qed.

Lemma message_throws_only_on_prototype_witness :
  (exists s' out,
      dispatch alice (clock 3000) (drop_item sword_id) lobby = Normal (s', out)
      /\ on_message alice (clock 3000) (plain (drop_item sword_id)) lobby
         = (s', (out ++ broadcast s')%list))
  /\ (let s := state_after attack_edge server0 in
      on_message alice (clock 9000)
        (plain (attack_player "__proto__" sword_id None)) s = (s, [])).
Proof.
  split.
  - edestruct (message_throws_only_on_prototype alice (clock 3000)
                 (plain (drop_item sword_id)) lobby) as (_ & Hdone).
    + vm_compute. reflexivity.
    + vm_compute. reflexivity.
    + apply Hdone. vm_compute. reflexivity.
  - intros s.
    edestruct (message_throws_only_on_prototype alice (clock 9000)
                 (plain (attack_player "__proto__" sword_id None)) s) as (Hthrow & _).
    + vm_compute. reflexivity.
    + vm_compute. reflexivity.
    + apply Hthrow. vm_compute. reflexivity.
Defined.

(** ** Two players, one item *)

(** When two different players ask for the same unclaimed item one after the
    other, the first, within range, is answered [collection_started] and
    the second is answered [collection_error], wherever the second player
    stands; the second request changes nothing. *)
Theorem race_has_one_winner
    (c1 c2 : Conn) (e1 e2 : Env) (data1 data2 : Message) (s : Server)
    (itemId : string) (i : nat) (item : Item.t) (p1 p2 : Player.t) :
  action data1 = pickup_item itemId ->
  action data2 = pickup_item itemId ->
  unauthorized c1 data1 s = false ->
  unauthorized c2 data2 s = false ->
  findIndex (fun x => String.eqb (Item.itemId x) itemId) (worldItems s) = Some i ->
  worldItems s !! i = Some item ->
  players s !! playerId c1 = Some p1 ->
  players s !! playerId c2 = Some p2 ->
  playerId c2 <> playerId c1 ->
  dist2 (Item.position item) (Player.position p1) < 0.001 * 0.001 ->
  Item.beingCollected item = false ->
  exists s1 message,
    on_message c1 e1 data1 s
    = (s1, (clientId c1,
            collection_started (Item.itemId item) (or_num (Item.collectionTime item) 3000))
           :: broadcast s1)
    /\ on_message c2 e2 data2 s1
       = (s1, (clientId c2, collection_error message) :: broadcast s1)
    /\ exists held, worldItems s1 !! i = Some held /\ holds held (playerId c1).
Proof.
  intros Hact1 Hact2 Hauth1 Hauth2 Hfind Hi Hp1 Hp2 Hne Hnear Hfree.
  pose proof (pickup_started c1 e1 data1 s itemId i item p1
                Hact1 Hauth1 Hfind Hi Hp1 Hnear Hfree) as Hfirst.
  simpl in Hfirst.
  set (item' := Item.set_claim true (Some (playerId c1)) item) in *.
  set (s1 := set_timers _ _) in *.
  assert (Hi1 : worldItems s1 !! i = Some item').
  { subst s1. simpl. apply list_lookup_insert_eq. now apply lookup_lt_Some with item. }
  assert (Hfind1 : findIndex (fun x => String.eqb (Item.itemId x) itemId) (worldItems s1)
                   = Some i).
  { subst s1. simpl. now rewrite (findIndex_insert _ _ i item item' Hi). }
  exists s1,
    (if sqrt_lt (dist2 (Item.position item') (Player.position p2)) 0.001
     then "This item is being collected by another player"
     else "Item is too far away to collect").
  split; [exact Hfirst|]. split.
  - unfold on_message.
    change (unauthorized c2 data2 s1) with (unauthorized c2 data2 s).
    rewrite Hauth2, Hact2. simpl.
    unfold pickup_item_case, with_player. rewrite Hfind1, Hi1.
    change (players s1) with (players s). rewrite Hp2.
    destruct (sqrt_lt _ _); [|reflexivity]. simpl.
    destruct (String.eqb_spec (playerId c1) (playerId c2)) as [E|E]; [congruence|].
    reflexivity.
  - exists item'. split; [exact Hi1|]. split; reflexivity.
Qed.

Lemma race_has_one_winner_witness :
  exists s1 message,
    on_message alice (clock 2000) (plain (pickup_item sword_id)) lobby
    = (s1, (clientId alice, collection_started sword_id (or_num (Some 5000) 3000))
           :: broadcast s1)
    /\ on_message bob (clock 2000) (plain (pickup_item sword_id)) s1
       = (s1, (clientId bob, collection_error message) :: broadcast s1).
Proof.
  epose proof (race_has_one_winner alice bob (clock 2000) (clock 2000)
                 (plain (pickup_item sword_id)) (plain (pickup_item sword_id)) lobby
                 sword_id 1%nat _ _ _ eq_refl eq_refl) as H.
  edestruct H as (s1 & message & Hfirst & Hsecond & _).
  - vm_compute. reflexivity.
  - vm_compute. reflexivity.
  - vm_compute. reflexivity.
  - vm_compute. reflexivity.
  - vm_compute. reflexivity.
  - vm_compute. reflexivity.
  - vm_compute. discriminate.
  - vm_compute. reflexivity.
  - vm_compute. reflexivity.
  - exists s1, message. split; [exact Hfirst|exact Hsecond].
Defined.
